(** * Lecture-Summarizer: the batch pipeline, embedded and verified

    A shallow embedding of [audio_chunker.py], [batch_processor.py] and the
    [run_pipeline] closure of [app.py].

    - Python [int] is [Z]; list indices and loop counters are [nat].
    - Python [str] is [string]. Characters are the 256 code points of
      [ascii]; [is_space] is [str.isspace] restricted to them.
    - The working directory is a finite map from path to file content
      ([gmap string string]); a file has nonzero size iff its content is
      not the empty string.
    - The progress fields are Python floats; they are carried as exact
      rationals ([Q]). No statement below depends on a rounded value.
    - The external collaborators (pydub, the transcription worker, ollama)
      and the thread that may call [stop()] are an environment record
      [Env] of oracles; every theorem quantifies over it. *)

From Stdlib Require Import QArith Ascii String.
From Stdlib Require Import DecimalString DecimalNat.
From stdpp Require Import gmap strings list fin_maps sorting.

Local Open Scope string_scope.
Local Open Scope nat_scope.

(** ** Python strings *)

Module PyStr.

(** [str.isspace] on the code points below 256: TAB..CR (9-13), FS..US
    (28-31), SPACE (32), NEL (133), NBSP (160). *)
Definition is_space (c : ascii) : bool :=
  let n := nat_of_ascii c in
  ((9 <=? n) && (n <=? 13)) || ((28 <=? n) && (n <=? 32))
  || (n =? 133) || (n =? 160).

Definition nl : string := String (ascii_of_nat 10) "".

(** [s + c] for a single character. *)
Definition snoc (s : string) (c : ascii) : string := s ++ String c "".

(** [str.split()] with no argument: scan left to right, [cur] is the word
    being collected. Runs of whitespace separate words and never produce an
    empty word. *)
Fixpoint split_go (cur : string) (s : string) : list string :=
  match s with
  | "" => if decide (cur = "") then [] else [cur]
  | String c s' =>
      if is_space c
      then (if decide (cur = "") then split_go "" s' else cur :: split_go "" s')
      else split_go (snoc cur c) s'
  end.

Definition split (s : string) : list string := split_go "" s.

(** [sep.join(ls)]. *)
Definition join (sep : string) (ls : list string) : string :=
  String.concat sep ls.

(** [str.lstrip()], [str.rstrip()], [str.strip()]. *)
Fixpoint lstrip (s : string) : string :=
  match s with
  | "" => ""
  | String c s' => if is_space c then lstrip s' else s
  end.

Fixpoint rstrip (s : string) : string :=
  match s with
  | "" => ""
  | String c s' =>
      match rstrip s' with
      | "" => if is_space c then "" else String c ""
      | r => String c r
      end
  end.

Definition strip (s : string) : string := rstrip (lstrip s).

(** [str.startswith]. *)
Definition startswith (s p : string) : bool := String.prefix p s.

(** [str.replace(old, new)] for a non-empty [old]: all non-overlapping
    occurrences, left to right. [skip] counts the characters of a match
    still to be dropped. *)
Fixpoint replace_go (old new : string) (skip : nat) (s : string) : string :=
  match s with
  | "" => ""
  | String c s' =>
      match skip with
      | S k => replace_go old new k s'
      | O =>
          if String.prefix old s
          then new ++ replace_go old new (String.length old - 1) s'
          else String c (replace_go old new 0 s')
      end
  end.

Definition replace (s old new : string) : string := replace_go old new 0 s.

(** [str(n)] for a non-negative integer. *)
Definition dec (n : nat) : string := NilZero.string_of_uint (Nat.to_uint n).

(** [f"{n:03d}"]: decimal, padded on the left with zeros to at least three
    characters. *)
Fixpoint zeros (k : nat) : string :=
  match k with O => "" | S k' => String "0" (zeros k') end.

Definition fmt_03d (n : nat) : string :=
  let s := dec n in zeros (3 - String.length s) ++ s.

(** Comparison of [str] values by code point, as [sorted] uses it. *)
Definition le (a b : string) : Prop := String.leb a b = true.

End PyStr.

Example split_ex : PyStr.split "  the quick   brown fox " = ["the"; "quick"; "brown"; "fox"].
Proof. reflexivity. Qed.

Example strip_ex : PyStr.strip "  a b  " = "a b".
Proof. reflexivity. Qed.

Example replace_ex : PyStr.replace "recording.wav" ".wav" "_norm.wav" = "recording_norm.wav".
Proof. reflexivity. Qed.

Example fmt_ex : (PyStr.fmt_03d 7, PyStr.fmt_03d 42, PyStr.fmt_03d 1000) = ("007", "042", "1000").
Proof. reflexivity. Qed.

(** ** audio_chunker.py *)

Module AudioChunker.

Definition output_dir : string := "audio_chunks".

(** [os.path.join(d, f)] for a relative [f]. *)
Definition path_join (d f : string) : string := d ++ "/" ++ f.

(** One exported chunk: the slice [audio[start_ms:end_ms]] and its path. *)
Record Chunk := mkChunk {
  index : nat;
  start_ms : Z;
  end_ms : Z;
  chunk_path : string
}.

Definition duration (c : Chunk) : Z := end_ms c - start_ms c.

(** [math.ceil(a / b)] for integers [a] and [b <> 0]. The source
    divides as floats; the quotient of two integers below [2^53] is rounded
    correctly and its ceiling is the exact one computed here. *)
Definition ceil_div (a b : Z) : Z := (- ((- a) / b))%Z.

(** The body of the [for i in range(num_chunks)] loop. *)
Definition make_chunk (total_length_ms chunk_length_ms : Z) (i : nat) : Chunk :=
  let start := (Z.of_nat i * chunk_length_ms)%Z in
  let stop := Z.min ((Z.of_nat i + 1) * chunk_length_ms) total_length_ms in
  mkChunk i start stop (path_join output_dir ("chunk_" ++ PyStr.fmt_03d i ++ ".wav")).

(** [split_audio] once the audio is loaded: [total_length_ms = len(audio)].
    [range(num_chunks)] is empty for [num_chunks <= 0]. *)
Definition split_loaded (total_length_ms chunk_length_ms : Z) : list Chunk :=
  let num_chunks := ceil_div total_length_ms chunk_length_ms in
  map (make_chunk total_length_ms chunk_length_ms) (seq 0 (Z.to_nat num_chunks)).

(** [split_audio]: [audio] is the outcome of [AudioSegment.from_file]
    ([None] when loading raises, which the source turns into []). The result
    is [None] when [total_length_ms / chunk_length_ms] raises
    [ZeroDivisionError]. *)
Definition split_audio (audio : option Z) (chunk_length_ms : Z) : option (list Chunk) :=
  match audio with
  | None => Some []
  | Some total_length_ms =>
      if decide (chunk_length_ms = 0)%Z then None
      else Some (split_loaded total_length_ms chunk_length_ms)
  end.

Definition total_duration (cs : list Chunk) : Z :=
  foldr (fun c acc => (duration c + acc)%Z) 0%Z cs.

End AudioChunker.

Example split_audio_65s :
  option_map (map AudioChunker.duration) (AudioChunker.split_audio (Some 65000%Z) 30000%Z)
  = Some [30000%Z; 30000%Z; 5000%Z].
Proof. reflexivity. Qed.

(** ** batch_processor.py: state, environment and effects *)

Module Pipeline.

Import AudioChunker.

Definition TRANSCRIPT_DIR : string := "transcripts".
Definition SUMMARY_DIR : string := "summaries".
Definition NOTES_DIR : string := "notes".
Definition FINAL_NOTES_FILE : string := path_join NOTES_DIR "final_notes.txt".
Definition LECTURE_CLEAN_FILE : string := "lecture_clean.txt".
Definition RECORDING_FILE : string := "recording.wav".

(** The fields [__init__] creates; [_stop_event] is the [threading.Event],
    [true] when set. *)
Record BatchProcessor := mkBP {
  transcription_progress : Q;
  summarization_progress : Q;
  status_message : string;
  is_running : bool;
  _stop_event : bool
}.

(** One [subprocess.run]: the command line and the text fed to stdin. *)
Record Spawn := mkSpawn { cmd : list string; input : string }.

(** What the program can touch: the processor object, the files of the
    working directory, and the trace of subprocesses it has started. *)
Record World := mkWorld {
  self : BatchProcessor;
  disk : gmap string string;
  spawned : list Spawn
}.

(** Outcome of [subprocess.run] on the transcription worker. *)
Inductive WorkerResult :=
| WorkerExit (returncode : Z) (stdout : string)
| WorkerRaise (e : string).

(** Outcome of [subprocess.run] on ollama; the return code is not read. *)
Inductive OllamaResult :=
| OllamaExit (stdout : string)
| OllamaNotFound
| OllamaRaise (e : string).

(** The collaborators and the observer thread of one run. *)
Record Env := mkEnv {
  sys_executable : string;
  (** [from RealtimeSTT import AudioToTextRecorder] succeeds *)
  realtimestt_importable : bool;
  (** [len(AudioSegment.from_file(path))], [None] when it raises *)
  decode : string -> option Z;
  (** [effects.normalize] and the export of the normalized file succeed *)
  normalize_ok : bool;
  (** [chunk.export] raises this (it is not guarded by the source) *)
  export_error : option string;
  (** the worker started on a chunk path *)
  run_worker : string -> WorkerResult;
  (** ollama started on a prompt *)
  run_ollama : string -> OllamaResult;
  (** [stop()] has been called by another thread when iteration [i] of the
      transcription loop tests the flag *)
  stop_before_transcribing : nat -> bool;
  (** the same for the summarization loop *)
  stop_before_summarizing : nat -> bool
}.

(** Computations that read and write the world and may raise. *)
Inductive Outcome (A : Type) :=
| Ret (a : A)
| Exc (e : string).
Arguments Ret {A} a.
Arguments Exc {A} e.

Definition M (A : Type) : Type := World -> Outcome A * World.

Definition ret {A} (a : A) : M A := fun w => (Ret a, w).
Definition raise {A} (e : string) : M A := fun w => (Exc e, w).
Definition bind {A B} (m : M A) (k : A -> M B) : M B :=
  fun w => match m w with
           | (Ret a, w') => k a w'
           | (Exc e, w') => (Exc e, w')
           end.

Notation "x <- m ;; k" := (bind m (fun x => k))
  (at level 100, m at next level, right associativity).
Notation "m ;;; k" := (bind m (fun _ => k))
  (at level 100, right associativity).

Definition get_disk : M (gmap string string) := fun w => (Ret (disk w), w).
Definition get_self : M BatchProcessor := fun w => (Ret (self w), w).

Definition modify_self (f : BatchProcessor -> BatchProcessor) : M unit :=
  fun w => (Ret tt, mkWorld (f (self w)) (disk w) (spawned w)).

Definition set_status (s : string) : M unit :=
  modify_self (fun p => mkBP (transcription_progress p) (summarization_progress p)
                             s (is_running p) (_stop_event p)).
Definition set_transcription_progress (q : Q) : M unit :=
  modify_self (fun p => mkBP q (summarization_progress p)
                             (status_message p) (is_running p) (_stop_event p)).
Definition set_summarization_progress (q : Q) : M unit :=
  modify_self (fun p => mkBP (transcription_progress p) q
                             (status_message p) (is_running p) (_stop_event p)).
Definition set_is_running (b : bool) : M unit :=
  modify_self (fun p => mkBP (transcription_progress p) (summarization_progress p)
                             (status_message p) b (_stop_event p)).

(** [BatchProcessor.stop]: sets the event. Nothing in the class clears it. *)
Definition stop : M unit :=
  modify_self (fun p => mkBP (transcription_progress p) (summarization_progress p)
                             (status_message p) (is_running p) true).

(** [with open(path, "w") as f: f.write(text)] *)
Definition write_file (path text : string) : M unit :=
  fun w => (Ret tt, mkWorld (self w) (<[path := text]> (disk w)) (spawned w)).

(** [with open(path, "r") as f: f.read()] *)
Definition read_file (path : string) : M string :=
  fun w => match disk w !! path with
           | Some text => (Ret text, w)
           | None => (Exc ("[Errno 2] No such file or directory: '" ++ path ++ "'"), w)
           end.

(** [os.path.exists(path) and os.path.getsize(path) > 0] *)
Definition exists_nonempty (d : gmap string string) (path : string) : bool :=
  match d !! path with
  | Some text => bool_decide (text <> "")
  | None => false
  end.

Definition log_spawn (s : Spawn) : M unit :=
  fun w => (Ret tt, mkWorld (self w) (disk w) (spawned w ++ [s])).

(** The observer thread: when it has called [stop()] by now, the event is
    set before the loop tests it. *)
Definition observe (stopped : bool) : M unit :=
  if stopped then stop else ret tt.

(** *** Directory listing and [sorted] *)

(** [p = d/f] with [f] a plain file name: [Some f]. *)
Fixpoint strip_prefix (pre s : string) : option string :=
  match pre, s with
  | "", _ => Some s
  | String a pre', String b s' => if decide (a = b) then strip_prefix pre' s' else None
  | String _ _, "" => None
  end.

Fixpoint has_slash (s : string) : bool :=
  match s with
  | "" => false
  | String c s' => if decide (c = "/"%char) then true else has_slash s'
  end.

Definition child_of (d p : string) : option string :=
  match strip_prefix (d ++ "/") p with
  | Some f => if has_slash f then None else Some f
  | None => None
  end.

(** [os.listdir(d)]: the names of the files directly inside [d], in an
    unspecified order. *)
Definition listdir (d : string) (dk : gmap string string) : list string :=
  omap (child_of d) (map_to_list dk).*1.

(** [sorted(xs)] on strings. *)
#[global] Instance str_le_dec a b : Decision (PyStr.le a b).
Proof. unfold PyStr.le. apply _. Defined.

Definition sorted (xs : list string) : list string := merge_sort PyStr.le xs.

(** [sorted([os.path.join(d, f) for f in os.listdir(d) if f.startswith(pre)])] *)
Definition sorted_files (d pre : string) (dk : gmap string string) : list string :=
  sorted (map (path_join d) (filter (fun f => PyStr.startswith f pre = true) (listdir d dk))).

(** *** The transcription stage *)

Definition batch_file (i : nat) : string :=
  path_join TRANSCRIPT_DIR ("batch_" ++ PyStr.fmt_03d i ++ ".txt").

Definition summary_file (i : nat) : string :=
  path_join SUMMARY_DIR ("summary_" ++ PyStr.fmt_03d i ++ ".txt").

Definition _transcribe_file (env : Env) (file_path : string) : M string :=
  if realtimestt_importable env then
    log_spawn (mkSpawn [sys_executable env; "transcribe_worker.py"; file_path] "") ;;;
    match run_worker env file_path with
    | WorkerExit returncode stdout =>
        if (returncode =? 0)%Z then ret (PyStr.strip stdout) else ret ""
    | WorkerRaise _ => ret ""
    end
  else ret "[Error: RealtimeSTT not found]".

(** Reading the listed files in order: [full_text += txt.read() + sep]. *)
Fixpoint read_all (sep : string) (files : list string) (acc : string) : M string :=
  match files with
  | [] => ret acc
  | f :: rest => text <- read_file f ;; read_all sep rest (acc ++ text ++ sep)
  end.

Definition merge_transcripts : M unit :=
  d <- get_disk ;;
  let files := sorted_files TRANSCRIPT_DIR "batch_" d in
  full_text <- read_all " " files "" ;;
  write_file LECTURE_CLEAN_FILE (PyStr.strip full_text).

(** The body of the transcription loop after the stop test, for unit [i]. *)
Definition transcribe_unit (env : Env) (total_chunks i : nat) (chunk_path : string) : M unit :=
  set_status ("Transcribing batch " ++ PyStr.dec (i + 1) ++ "/" ++ PyStr.dec total_chunks ++ "...") ;;;
  let transcript_file := batch_file i in
  d <- get_disk ;;
  (if exists_nonempty d transcript_file then ret tt
   else (text <- _transcribe_file env chunk_path ;; write_file transcript_file text)) ;;;
  set_transcription_progress
    ((2 # 10) + ((8 # 10) * inject_Z (Z.of_nat (i + 1)) / inject_Z (Z.of_nat total_chunks)))%Q.

(** [for i, chunk_path in enumerate(chunks)], from index [i] on. *)
Fixpoint transcribe_loop (env : Env) (total_chunks i : nat) (chunks : list string) : M unit :=
  match chunks with
  | [] => ret tt
  | chunk_path :: rest =>
      observe (stop_before_transcribing env i) ;;;
      p <- get_self ;;
      if _stop_event p then ret tt
      else (transcribe_unit env total_chunks i chunk_path ;;;
            transcribe_loop env total_chunks (S i) rest)
  end.

(** [self.chunker.split_audio(path)] with the default chunk length; the
    chunk files themselves are audio and stay outside [disk]. *)
Definition chunker_split_audio (env : Env) (path : string) : M (list string) :=
  match split_audio (decode env path) 30000 with
  | None => raise "float division by zero"
  | Some [] => ret []
  | Some (c :: cs) =>
      match export_error env with
      | Some e => raise e
      | None => ret (map chunk_path (c :: cs))
      end
  end.

Definition process_audio_batches (env : Env) (audio_file_path : string) : M bool :=
  set_status "Chunking audio..." ;;;
  set_transcription_progress (1 # 10)%Q ;;;
  set_status "Normalizing audio..." ;;;
  let audio_for_chunking :=
    match decode env audio_file_path with
    | Some _ => if normalize_ok env
                then PyStr.replace audio_file_path ".wav" "_norm.wav"
                else audio_file_path
    | None => audio_file_path
    end in
  chunks <- chunker_split_audio env audio_for_chunking ;;
  match chunks with
  | [] => set_status "Audio chunking failed." ;;; ret false
  | _ :: _ =>
      let total_chunks := length chunks in
      set_transcription_progress (2 # 10)%Q ;;;
      transcribe_loop env total_chunks 0 chunks ;;;
      set_status "Merging transcripts..." ;;;
      merge_transcripts ;;;
      set_transcription_progress 1%Q ;;;
      ret true
  end.

(** *** The text chunker *)

(** [len(range(0, stop, step))] for [step > 0], as CPython computes it. *)
Definition range_len (stop step : nat) : nat :=
  if decide (0 < stop) then 1 + (stop - 1) / step else 0.

(** [list(range(0, stop, step))] for [step > 0]. *)
Definition py_range (stop step : nat) : list nat :=
  map (fun k => k * step) (seq 0 (range_len stop step)).

(** [l[i:j]] for [0 <= i <= j]. *)
Definition slice {A} (l : list A) (i j : nat) : list A := take (j - i) (drop i l).

(** [list(split_text_into_chunks(text, words_per_chunk))]. [range] raises
    [ValueError] for a zero step ([None]) and is empty for a negative one. *)
Definition split_text_into_chunks (text : string) (words_per_chunk : Z) : option (list string) :=
  let words := PyStr.split text in
  if decide (words_per_chunk = 0)%Z then None
  else if decide (words_per_chunk < 0)%Z then Some []
  else
    let n := Z.to_nat words_per_chunk in
    Some (map (fun i => PyStr.join " " (slice words i (i + n)))
              (py_range (length words) n)).

(** *** The summarization stage *)

Definition summary_prompt (text : string) : string :=
  "Summarize the following text into concise bullet points:" ++ PyStr.nl ++ PyStr.nl ++ text.

(** [spawned] records the attempt also when the binary is not found. *)
Definition _summarize_text_chunk (env : Env) (text : string) : M string :=
  let prompt := summary_prompt text in
  log_spawn (mkSpawn ["ollama"; "run"; "phi"] prompt) ;;;
  match run_ollama env prompt with
  | OllamaExit stdout => ret (PyStr.strip stdout)
  | OllamaNotFound => ret "[Error: Ollama not found]"
  | OllamaRaise e => raise e
  end.

Definition notes_header : string := "# Final Lecture Notes" ++ PyStr.nl ++ PyStr.nl.

Definition compile_final_notes : M unit :=
  d <- get_disk ;;
  let files := sorted_files SUMMARY_DIR "summary_" d in
  full_notes <- read_all (PyStr.nl ++ PyStr.nl) files notes_header ;;
  write_file FINAL_NOTES_FILE full_notes.

(** The body of the summarization loop after the stop test, for unit [i]. *)
Definition summarize_unit (env : Env) (total_chunks i : nat) (chunk : string) : M unit :=
  set_status ("Summarizing part " ++ PyStr.dec (i + 1) ++ "/" ++ PyStr.dec total_chunks ++ "...") ;;;
  let summary_file := summary_file i in
  d <- get_disk ;;
  (if exists_nonempty d summary_file then ret tt
   else (summary <- _summarize_text_chunk env chunk ;; write_file summary_file summary)) ;;;
  set_summarization_progress
    (inject_Z (Z.of_nat (i + 1)) / inject_Z (Z.of_nat total_chunks))%Q.

Fixpoint summarize_loop (env : Env) (total_chunks i : nat) (chunks : list string) : M unit :=
  match chunks with
  | [] => ret tt
  | chunk :: rest =>
      observe (stop_before_summarizing env i) ;;;
      p <- get_self ;;
      if _stop_event p then ret tt
      else (summarize_unit env total_chunks i chunk ;;;
            summarize_loop env total_chunks (S i) rest)
  end.

Definition process_summary_batches (env : Env) : M bool :=
  set_status "Preparing text for summary..." ;;;
  set_summarization_progress 0%Q ;;;
  d <- get_disk ;;
  match d !! LECTURE_CLEAN_FILE with
  | None => set_status "No transcript found." ;;; ret false
  | Some _ =>
      text <- read_file LECTURE_CLEAN_FILE ;;
      match split_text_into_chunks text 500 with
      | None => raise "range() arg 3 must not be zero"
      | Some chunks =>
          let total_chunks := length chunks in
          if decide (total_chunks = 0) then set_status "Text is empty." ;;; ret false
          else
            summarize_loop env total_chunks 0 chunks ;;;
            set_status "Compiling final notes..." ;;;
            compile_final_notes ;;;
            set_summarization_progress 1%Q ;;;
            ret true
      end
  end.

(** ** app.py: the pipeline thread *)

(** [try: body  except Exception as e: handler(str(e))  finally: final] *)
Definition try_except_finally (body : M unit) (handler : string -> M unit)
    (final : M unit) : M unit :=
  fun w =>
    match body w with
    | (Ret _, w') => final w'
    | (Exc e, w') => (handler e ;;; final) w'
    end.

(** The [try] block of [run_pipeline]. *)
Definition pipeline_body (env : Env) : M unit :=
  success_stt <- process_audio_batches env RECORDING_FILE ;;
  if success_stt then (process_summary_batches env ;;; ret tt) else ret tt.

Definition run_pipeline (env : Env) : M unit :=
  try_except_finally
    (pipeline_body env)
    (fun e => set_status ("Error: " ++ e))
    (set_is_running false).

(** The "Start Batch Processing" handler: [proc.is_running = True], then the
    thread runs [run_pipeline] to its end. *)
Definition start_batch_processing (env : Env) : M unit :=
  set_is_running true ;;;
  run_pipeline env.

End Pipeline.

(** * Properties *)

(** ** The chunk splitter *)

Section ChunkSplitter.
Import AudioChunker.
Local Open Scope Z_scope.

Variables D C : Z.
Hypothesis D_nonneg : 0 <= D.
Hypothesis C_pos : 0 < C.

(** [ceil_div D C] is the ceiling of the quotient: the least [n] with
    [D <= n * C]. *)
Lemma ceil_div_spec : (ceil_div D C - 1) * C < D <= ceil_div D C * C.
Proof.
  unfold ceil_div.
  pose proof (Z.div_mod (- D) C ltac:(lia)) as Hdm.
  pose proof (Z.mod_pos_bound (- D) C C_pos) as Hr.
  nia.
Qed.

Lemma ceil_div_nonneg : 0 <= ceil_div D C.
Proof. pose proof ceil_div_spec. nia. Qed.

Lemma total_duration_app cs1 cs2 :
  total_duration (cs1 ++ cs2) = total_duration cs1 + total_duration cs2.
Proof.
  induction cs1 as [|c cs1 IH]; simpl; [reflexivity|].
  unfold total_duration in *. simpl. rewrite IH. lia.
Qed.

(** The first [k] chunks cover [[0, k * C)] while [k] is at most the chunk
    count. *)
Lemma total_duration_prefix (k : nat) :
  Z.of_nat k <= ceil_div D C ->
  total_duration (map (make_chunk D C) (seq 0 k)) = Z.min (Z.of_nat k * C) D.
Proof.
  pose proof ceil_div_spec as Hc.
  induction k as [|k IH]; intros Hk.
  - simpl. unfold total_duration. simpl. lia.
  - rewrite seq_S, map_app, total_duration_app, IH by lia.
    simpl. unfold total_duration, duration. simpl. nia.
Qed.

Lemma split_loaded_length :
  length (split_loaded D C) = Z.to_nat (ceil_div D C).
Proof. unfold split_loaded. by rewrite length_map, length_seq. Qed.

Lemma split_loaded_lookup (i : nat) :
  Z.of_nat i < ceil_div D C ->
  split_loaded D C !! i = Some (make_chunk D C i).
Proof.
  intros Hi. unfold split_loaded.
  rewrite list_lookup_fmap, lookup_seq_lt by lia. reflexivity.
Qed.

Lemma split_loaded_total : total_duration (split_loaded D C) = D.
Proof.
  pose proof ceil_div_spec. pose proof ceil_div_nonneg.
  unfold split_loaded. rewrite total_duration_prefix by lia. lia.
Qed.

Lemma make_chunk_duration (i : nat) :
  Z.of_nat i < ceil_div D C ->
  0 < duration (make_chunk D C i) <= C.
Proof.
  pose proof ceil_div_spec. intros Hi. unfold duration. simpl. nia.
Qed.

End ChunkSplitter.

(** The spec's wording of the text chunker's round trip, "T with internal
    whitespace runs collapsed to single spaces": every maximal run of
    whitespace becomes one space. [in_run] holds inside a run. *)
Fixpoint collapse_go (in_run : bool) (s : string) : string :=
  match s with
  | "" => ""
  | String c s' =>
      if PyStr.is_space c
      then (if in_run then collapse_go true s' else String " " (collapse_go true s'))
      else String c (collapse_go false s')
  end.

Definition collapse_runs (s : string) : string := collapse_go false s.

Example collapse_runs_ex : collapse_runs "a  b   c" = "a b c".
Proof. reflexivity. Qed.

(** ** Words, [split] and [join] *)

Section Words.
Import PyStr.

Lemma str_app_cons c s t : String c s ++ t = String c (s ++ t).
Proof. reflexivity. Qed.

Lemma str_app_nil_r s : s ++ "" = s.
Proof. induction s as [|c s IH]; [reflexivity|]. by rewrite str_app_cons, IH. Qed.

Lemma str_app_assoc a b c : (a ++ b) ++ c = a ++ (b ++ c).
Proof. induction a as [|x a IH]; [reflexivity|]. by rewrite !str_app_cons, IH. Qed.

Lemma str_app_eq_nil a b : a ++ b = "" -> a = "" /\ b = "".
Proof.
  destruct a; [intros H; change (b = "") in H; by subst|].
  rewrite str_app_cons. discriminate.
Qed.

(** No whitespace character occurs in [s]. *)
Fixpoint no_space (s : string) : bool :=
  match s with
  | "" => true
  | String c s' => negb (is_space c) && no_space s'
  end.

(** A word: non-empty and free of whitespace. *)
Definition is_word (w : string) : Prop := w <> "" /\ no_space w = true.

Lemma no_space_app a b : no_space (a ++ b) = no_space a && no_space b.
Proof.
  induction a as [|c a IH]; [reflexivity|].
  rewrite str_app_cons. simpl. rewrite IH. by rewrite andb_assoc.
Qed.

Lemma split_go_cons_space cur c s :
  is_space c = true ->
  split_go cur (String c s) = if decide (cur = "") then split_go "" s else cur :: split_go "" s.
Proof. intros H. simpl. by rewrite H. Qed.

Lemma split_go_cons_char cur c s :
  is_space c = false -> split_go cur (String c s) = split_go (snoc cur c) s.
Proof. intros H. simpl. by rewrite H. Qed.

(** Scanning over a whitespace-free run extends the current word. *)
Lemma split_go_app_word w : forall cur s,
  no_space w = true -> split_go cur (w ++ s) = split_go (cur ++ w) s.
Proof.
  induction w as [|c w IH]; intros cur s Hw.
  - by rewrite str_app_nil_r.
  - simpl in Hw. apply andb_prop in Hw as [Hc Hw]. apply negb_true_iff in Hc.
    rewrite str_app_cons, split_go_cons_char, IH by done.
    unfold snoc. by rewrite str_app_assoc.
Qed.

(** Everything [split] returns is a word. *)
Lemma split_go_words s : forall cur,
  no_space cur = true -> Forall is_word (split_go cur s).
Proof.
  induction s as [|c s IH]; intros cur Hcur; simpl.
  - case_decide; [constructor|]. by repeat constructor.
  - destruct (is_space c) eqn:Hc.
    + case_decide; [by apply IH|]. constructor; [done|by apply IH].
    + apply IH. unfold snoc. rewrite no_space_app, Hcur. simpl. by rewrite Hc.
Qed.

Lemma split_words s : Forall is_word (split s).
Proof. by apply split_go_words. Qed.

Lemma join_cons sep w ws :
  ws <> [] -> join sep (w :: ws) = w ++ sep ++ join sep ws.
Proof. by destruct ws. Qed.

(** Splitting single-space-joined words gives the words back. *)
Lemma split_join ws : Forall is_word ws -> split (join " " ws) = ws.
Proof.
  unfold split. induction 1 as [|w ws [Hne Hw] _ IH]; [reflexivity|].
  destruct ws as [|w2 ws].
  - simpl. rewrite <- (str_app_nil_r w) at 1.
    rewrite split_go_app_word by done. simpl. by case_decide.
  - rewrite join_cons by done.
    rewrite split_go_app_word by done.
    change (" " ++ join " " (w2 :: ws)) with (String " " (join " " (w2 :: ws))).
    rewrite split_go_cons_space by reflexivity.
    simpl in *. case_decide; [done|]. by rewrite IH.
Qed.

Lemma join_app sep ws1 ws2 :
  ws1 <> [] -> ws2 <> [] ->
  join sep (ws1 ++ ws2)%list = join sep ws1 ++ sep ++ join sep ws2.
Proof.
  intros H1 H2. induction ws1 as [|x ws1 IH]; [done|].
  destruct ws1 as [|y ws1].
  - change (([x] ++ ws2)%list) with (x :: ws2). by rewrite join_cons.
  - change ((x :: y :: ws1) ++ ws2)%list with (x :: ((y :: ws1) ++ ws2)%list).
    rewrite (join_cons sep x ((y :: ws1) ++ ws2)%list) by done.
    rewrite IH by done.
    rewrite (join_cons sep x (y :: ws1)) by done.
    by rewrite !str_app_assoc.
Qed.

Lemma join_eq_nil ws : Forall is_word ws -> join " " ws = "" -> ws = [].
Proof.
  intros Hws. destruct Hws as [|w ws [Hne _] _]; [done|].
  destruct ws as [|w2 ws]; [done|].
  rewrite join_cons by done. intros H. by apply str_app_eq_nil in H as [? _].
Qed.

Lemma rstrip_app_word w t :
  w <> "" -> no_space w = true -> rstrip (w ++ t) = w ++ rstrip t.
Proof.
  induction w as [|c w IH]; [done|]. intros _ Hw.
  simpl in Hw. apply andb_prop in Hw as [Hc Hw]. apply negb_true_iff in Hc.
  rewrite !str_app_cons. simpl. destruct w as [|c2 w].
  - change ("" ++ t) with t. change ("" ++ rstrip t) with (rstrip t).
    rewrite Hc. by destruct (rstrip t).
  - rewrite IH by done. by rewrite str_app_cons.
Qed.

(** [" ".join(split_go cur s)] is the collapsed text with the blank ends
    removed. *)
Lemma join_split_go s : forall cur,
  no_space cur = true ->
  join " " (split_go cur s)
  = rstrip (cur ++ collapse_go (bool_decide (cur = "")) s).
Proof.
  induction s as [|c s IH]; intros cur Hcur.
  - simpl. case_decide as Hc.
    + by subst.
    + rewrite (rstrip_app_word cur "") by done.
      simpl. by rewrite str_app_nil_r.
  - destruct (is_space c) eqn:Hc.
    + rewrite split_go_cons_space by done. simpl collapse_go. rewrite Hc.
      case_decide as Hcur0.
      * subst cur. rewrite bool_decide_eq_true_2 by done. by rewrite IH.
      * rewrite bool_decide_eq_false_2 by done.
        rewrite rstrip_app_word by done.
        pose proof (IH "" eq_refl) as IH0.
        rewrite bool_decide_eq_true_2 in IH0 by done.
        change ("" ++ collapse_go true s) with (collapse_go true s) in IH0.
        simpl rstrip. rewrite <- IH0.
        destruct (split_go "" s) as [|w ws] eqn:Hsp.
        { simpl. by rewrite str_app_nil_r. }
        rewrite join_cons by done.
        pose proof (split_go_words s "" eq_refl) as Hws. rewrite Hsp in Hws.
        destruct (join " " (w :: ws)) as [|x r] eqn:Hj; [|done].
        by apply join_eq_nil in Hj.
    + rewrite split_go_cons_char by done. simpl collapse_go. rewrite Hc.
      rewrite IH.
      * rewrite bool_decide_eq_false_2.
        { unfold snoc. rewrite str_app_assoc. by destruct (bool_decide (cur = "")). }
        unfold snoc. intros H. by apply str_app_eq_nil in H as [_ ?].
      * unfold snoc. rewrite no_space_app, Hcur. simpl. by rewrite Hc.
Qed.

Lemma lstrip_collapse_go s : forall b, lstrip (collapse_go b s) = collapse_go true s.
Proof.
  induction s as [|c s IH]; intros b; [reflexivity|].
  simpl. destruct (is_space c) eqn:Hc.
  - destruct b; [apply IH|]. simpl. apply IH.
  - simpl. by rewrite Hc.
Qed.

(** [" ".join(text.split())] is [text] with its whitespace runs collapsed
    and the blank ends stripped. *)
Lemma join_split_collapse s : join " " (split s) = strip (collapse_runs s).
Proof.
  unfold split, strip, collapse_runs.
  rewrite join_split_go by done. by rewrite lstrip_collapse_go.
Qed.

End Words.

(** ** The text chunker *)

Section TextChunker.
Import PyStr Pipeline AudioChunker.

Variable ws : list string.
Variable n : nat.
Hypothesis n_pos : 0 < n.

Let cnt := range_len (length ws) n.

(** [range_len] is the ceiling of [len / step]. *)
Lemma range_len_spec :
  length ws <= cnt * n /\ (0 < cnt -> (cnt - 1) * n < length ws).
Proof.
  subst cnt. unfold range_len. case_decide as Hl; [|lia].
  pose proof (Nat.div_mod (length ws - 1) n ltac:(lia)) as Hdm.
  pose proof (Nat.mod_upper_bound (length ws - 1) n ltac:(lia)) as Hr.
  nia.
Qed.

Lemma range_len_ceil :
  Z.of_nat cnt = ceil_div (Z.of_nat (length ws)) (Z.of_nat n).
Proof.
  pose proof range_len_spec as [H1 H2].
  pose proof (ceil_div_spec (Z.of_nat (length ws)) (Z.of_nat n) ltac:(lia)) as Hc.
  destruct (decide (cnt = 0)) as [H0|H0]; nia.
Qed.

(** The segment built for the [k]-th element of the range. *)
Definition segment (k : nat) : string := join " " (slice ws (k * n) (k * n + n)).

Lemma segments_eq :
  map (fun i => join " " (slice ws i (i + n))) (py_range (length ws) n)
  = map segment (seq 0 cnt).
Proof. unfold py_range. by rewrite map_map. Qed.

Lemma slice_length k :
  length (slice ws (k * n) (k * n + n)) = Nat.min n (length ws - k * n).
Proof. unfold slice. rewrite length_take, length_drop. lia. Qed.

Lemma slice_take k :
  (take (k * n) ws ++ slice ws (k * n) (k * n + n))%list = take (S k * n) ws.
Proof.
  unfold slice. replace (k * n + n - k * n) with n by lia.
  rewrite take_take_drop. f_equal. lia.
Qed.

(** Joining the first [k] segments joins the first [k * n] words. *)
Lemma segments_join_prefix k :
  k <= cnt -> join " " (map segment (seq 0 k)) = join " " (take (k * n) ws).
Proof.
  pose proof range_len_spec as [_ Hlt].
  induction k as [|k IH]; intros Hk; [reflexivity|].
  rewrite seq_S, map_app. simpl map.
  assert (k * n < length ws) as Hkn by nia.
  assert (slice ws (k * n) (k * n + n) <> []) as Hsl.
  { intros H. apply (f_equal length) in H. rewrite slice_length in H. simpl in H. lia. }
  rewrite <- slice_take.
  destruct k as [|k].
  - reflexivity.
  - assert (take (S k * n) ws <> []) as Htk.
    { intros H. apply (f_equal length) in H. rewrite length_take in H. simpl in H. nia. }
    assert (map segment (seq 0 (S k)) <> []) as Hmp.
    { intros H. apply (f_equal length) in H.
      rewrite length_map, length_seq in H. simpl in H. lia. }
    rewrite (join_app " " (map segment (seq 0 (S k)))) by done.
    rewrite (join_app " " (take (S k * n) ws)) by done.
    rewrite IH by lia. reflexivity.
Qed.

Lemma segments_join : join " " (map segment (seq 0 cnt)) = join " " ws.
Proof.
  pose proof range_len_spec as [Hle _].
  rewrite segments_join_prefix by lia. by rewrite take_ge by lia.
Qed.

Hypothesis ws_words : Forall is_word ws.

(** A segment splits back into the words of its slice. *)
Lemma segment_words k : split (segment k) = slice ws (k * n) (k * n + n).
Proof. apply split_join. unfold slice. by apply Forall_take, Forall_drop. Qed.

Lemma segment_word_count k :
  k < cnt ->
  0 < length (split (segment k)) <= n /\
  (S k < cnt -> length (split (segment k)) = n).
Proof.
  pose proof range_len_spec as [_ Hlt].
  intros Hk. rewrite segment_words, slice_length. nia.
Qed.

End TextChunker.

(** ** The order [sorted] uses, and unit file names *)

Section StringOrder.
Import PyStr.

Lemma ascii_compare_refl c : Ascii.compare c c = Eq.
Proof. unfold Ascii.compare. apply N.compare_refl. Qed.

Lemma ascii_compare_lt_trans a b c :
  Ascii.compare a b = Lt -> Ascii.compare b c = Lt -> Ascii.compare a c = Lt.
Proof.
  unfold Ascii.compare. rewrite !N.compare_lt_iff. lia.
Qed.

Lemma str_compare_lt_trans a : forall b c,
  String.compare a b = Lt -> String.compare b c = Lt -> String.compare a c = Lt.
Proof.
  induction a as [|x a IH]; intros [|y b] [|z c]; simpl; try done.
  destruct (Ascii.compare x y) eqn:Hxy; try done.
  - apply Ascii.compare_eq_iff in Hxy as ->.
    destruct (Ascii.compare y z); try done. apply IH.
  - destruct (Ascii.compare y z) eqn:Hyz; try done.
    + apply Ascii.compare_eq_iff in Hyz as <-. by rewrite Hxy.
    + by rewrite (ascii_compare_lt_trans x y z).
Qed.

Lemma str_compare_refl a : String.compare a a = Eq.
Proof. induction a as [|x a IH]; [done|]. simpl. by rewrite ascii_compare_refl. Qed.

(** [a < b] for strings. *)
Definition str_lt (a b : string) : Prop := String.ltb a b = true.

Lemma str_lt_compare a b : str_lt a b <-> String.compare a b = Lt.
Proof. unfold str_lt, String.ltb. by destruct (String.compare a b). Qed.

Lemma str_le_lt_or_eq a b : le a b <-> str_lt a b \/ a = b.
Proof.
  unfold le, String.leb. rewrite str_lt_compare.
  destruct (String.compare a b) eqn:Hc.
  - apply String.compare_eq_iff in Hc. naive_solver.
  - naive_solver.
  - split; [done|]. intros [?| ->]; [done|].
    by rewrite str_compare_refl in Hc.
Qed.

#[global] Instance str_lt_trans : Transitive str_lt.
Proof. intros a b c. rewrite !str_lt_compare. apply str_compare_lt_trans. Qed.

#[global] Instance str_le_trans : Transitive le.
Proof.
  intros a b c. rewrite !str_le_lt_or_eq. intros [Hab | ->] [Hbc | ->]; eauto.
  left. by transitivity b.
Qed.

#[global] Instance str_le_antisym : AntiSymm (=) le.
Proof. intros a b. apply String.leb_antisym. Qed.

#[global] Instance str_le_total : Total le.
Proof. intros a b. apply String.leb_total. Qed.

#[global] Instance str_lt_dec a b : Decision (str_lt a b).
Proof. unfold str_lt. apply _. Defined.

Lemma str_lt_le a b : str_lt a b -> le a b.
Proof. rewrite str_le_lt_or_eq. eauto. Qed.

(** [sorted] returns the one ordered arrangement of its argument. *)
Lemma sorted_unique (xs ys : list string) :
  xs ≡ₚ ys -> Sorted str_lt ys -> Pipeline.sorted xs = ys.
Proof.
  intros Hp Hs. unfold Pipeline.sorted.
  apply (Sorted_unique le).
  - apply Sorted_merge_sort. apply _.
  - rewrite <- (list_fmap_id ys).
    apply (Sorted_fmap id str_lt le); [|done]. intros x y. apply str_lt_le.
  - by rewrite merge_sort_Permutation.
Qed.

End StringOrder.

Section UnitNames.
Import PyStr AudioChunker Pipeline.

(** Reading a decimal numeral back, leading zeros allowed. *)
Definition parse_dec (s : string) : option nat :=
  option_map Nat.of_uint (NilEmpty.uint_of_string s).

Lemma parse_dec_dec n : parse_dec (dec n) = Some n.
Proof.
  unfold parse_dec, dec.
  pose proof (DecimalNat.Unsigned.of_to n) as Hn.
  destruct (Nat.to_uint n) as [|d|d|d|d|d|d|d|d|d|d] eqn:Hu;
    [vm_compute in Hn; subst n; reflexivity|..];
    unfold NilZero.string_of_uint; rewrite NilEmpty.usu;
    unfold option_map; by rewrite Hn.
Qed.

Lemma parse_dec_zeros k s : parse_dec (zeros k ++ s) = parse_dec s.
Proof.
  induction k as [|k IH]; [reflexivity|].
  simpl zeros. rewrite str_app_cons. unfold parse_dec in *. simpl.
  destruct (NilEmpty.uint_of_string (zeros k ++ s)) as [d|] eqn:Hd;
    destruct (NilEmpty.uint_of_string s) as [d'|]; simpl in *; done.
Qed.

Lemma fmt_03d_inj i j : fmt_03d i = fmt_03d j -> i = j.
Proof.
  intros H. apply (f_equal parse_dec) in H. unfold fmt_03d in H.
  rewrite !parse_dec_zeros, !parse_dec_dec in H. by injection H.
Qed.

Lemma str_app_length a b : String.length (a ++ b) = String.length a + String.length b.
Proof. induction a as [|x a IH]; [done|]. rewrite str_app_cons. simpl. by rewrite IH. Qed.

Lemma str_app_inv_r c : forall a b, a ++ c = b ++ c -> a = b.
Proof.
  induction a as [|x a IH]; intros [|y b] H.
  - done.
  - apply (f_equal String.length) in H. rewrite !str_app_length in H. simpl in H. lia.
  - apply (f_equal String.length) in H. rewrite !str_app_length in H. simpl in H. lia.
  - rewrite !str_app_cons in H. injection H as -> H. f_equal. by apply IH.
Qed.

Lemma batch_file_inj i j : batch_file i = batch_file j -> i = j.
Proof.
  unfold batch_file, path_join. intros H.
  do 3 apply String.app_inj in H. apply str_app_inv_r in H. by apply fmt_03d_inj.
Qed.

Lemma summary_file_inj i j : summary_file i = summary_file j -> i = j.
Proof.
  unfold summary_file, path_join. intros H.
  do 3 apply String.app_inj in H. apply str_app_inv_r in H. by apply fmt_03d_inj.
Qed.

Lemma Sorted_take {A} (R : relation A) (l : list A) n :
  Sorted R l -> Sorted R (take n l).
Proof.
  intros Hs. revert n. induction Hs as [|x l Hs IH Hhd]; intros [|n]; simpl; try by constructor.
  constructor; [apply IH|]. destruct Hhd; destruct n; simpl; by constructor.
Qed.

(** Up to index 999 the three-digit names are in increasing order. *)
Lemma batch_files_sorted_1000 : Sorted str_lt (map batch_file (seq 0 1000)).
Proof. refine (bool_decide_unpack _ _). vm_compute. reflexivity. Qed.

Lemma summary_files_sorted_1000 : Sorted str_lt (map summary_file (seq 0 1000)).
Proof. refine (bool_decide_unpack _ _). vm_compute. reflexivity. Qed.

Lemma unit_files_sorted (f : nat -> string) n :
  Sorted str_lt (map f (seq 0 1000)) -> n <= 1000 -> Sorted str_lt (map f (seq 0 n)).
Proof.
  intros Hs Hn. replace (map f (seq 0 n)) with (take n (map f (seq 0 1000))).
  - by apply Sorted_take.
  - change (take n (f <$> seq 0 1000) = f <$> seq 0 n).
    rewrite <- fmap_take, take_seq. do 2 f_equal. lia.
Qed.

(** Unit files are distinct from the merged artifacts. *)
Lemma batch_file_ne_clean i : batch_file i <> LECTURE_CLEAN_FILE.
Proof.
  unfold LECTURE_CLEAN_FILE, batch_file, path_join, TRANSCRIPT_DIR.
  rewrite str_app_cons. discriminate.
Qed.

Lemma summary_file_ne_notes i : summary_file i <> FINAL_NOTES_FILE.
Proof.
  unfold FINAL_NOTES_FILE, summary_file, path_join, NOTES_DIR, SUMMARY_DIR.
  rewrite !str_app_cons. discriminate.
Qed.

Lemma batch_file_ne_notes i : batch_file i <> FINAL_NOTES_FILE.
Proof.
  unfold FINAL_NOTES_FILE, batch_file, path_join, NOTES_DIR, TRANSCRIPT_DIR.
  rewrite !str_app_cons. discriminate.
Qed.

Lemma batch_file_ne_summary i j : batch_file i <> summary_file j.
Proof.
  unfold summary_file, batch_file, path_join, SUMMARY_DIR, TRANSCRIPT_DIR.
  rewrite !str_app_cons. discriminate.
Qed.

End UnitNames.

(** ** Directory listings, the merger and the notes compiler *)

Section Listing.
Import PyStr AudioChunker Pipeline.

Lemma strip_prefix_spec pre : forall s f, strip_prefix pre s = Some f -> s = pre ++ f.
Proof.
  induction pre as [|a pre IH]; intros s f H.
  - simpl in H. by injection H as ->.
  - destruct s as [|b s]; [done|]. simpl in H. case_decide; [subst b|done].
    rewrite str_app_cons. f_equal. by apply IH.
Qed.

Lemma child_of_spec d p f : child_of d p = Some f -> p = path_join d f.
Proof.
  unfold child_of, path_join. destruct (strip_prefix (d ++ "/") p) as [g|] eqn:Hg; [|done].
  destruct (has_slash g); [done|]. intros [= <-].
  apply strip_prefix_spec in Hg. by rewrite <- str_app_assoc.
Qed.

(** Writing a file that is not directly inside [d] leaves the listing of
    [d] unchanged up to order. *)
Lemma listdir_insert_outside d k v (dk : gmap string string) :
  child_of d k = None -> listdir d (<[k := v]> dk) ≡ₚ listdir d dk.
Proof.
  intros Hk. unfold listdir.
  assert (forall (m : gmap string string) x, m !! k = None ->
            omap (child_of d) (map_to_list (<[k := x]> m)).*1
            ≡ₚ omap (child_of d) (map_to_list m).*1) as Hfresh.
  { intros m x Hm. rewrite map_to_list_insert by done. simpl. by rewrite Hk. }
  destruct (dk !! k) as [v0|] eqn:Hdk.
  - rewrite <- (insert_delete_eq dk k v).
    rewrite Hfresh by apply lookup_delete_eq.
    rewrite <- (map_to_list_delete dk k v0) by done. simpl. by rewrite Hk.
  - by apply Hfresh.
Qed.

Lemma sorted_perm xs ys : xs ≡ₚ ys -> sorted xs = sorted ys.
Proof.
  intros Hp. unfold sorted. apply (Sorted_unique le).
  - apply Sorted_merge_sort, _.
  - apply Sorted_merge_sort, _.
  - by rewrite !merge_sort_Permutation.
Qed.

Lemma sorted_files_insert_outside d pre k v (dk : gmap string string) :
  child_of d k = None -> sorted_files d pre (<[k := v]> dk) = sorted_files d pre dk.
Proof.
  intros Hk. unfold sorted_files. apply sorted_perm.
  apply fmap_Permutation. apply filter_Permutation. by apply listdir_insert_outside.
Qed.

(** Every listed path is a file of the directory that exists. *)
Lemma sorted_files_elem d pre (dk : gmap string string) f :
  f ∈ sorted_files d pre dk ->
  is_Some (dk !! f) /\ exists name, child_of d f = Some name /\ startswith name pre = true.
Proof.
  unfold sorted_files, sorted. rewrite merge_sort_Permutation.
  intros Hf. apply list_elem_of_fmap in Hf as (name & -> & Hname).
  apply list_elem_of_filter in Hname as [Hpre Hname].
  unfold listdir in Hname. apply list_elem_of_omap in Hname as (p & Hp & Hc).
  apply list_elem_of_fmap in Hp as ([p' v] & -> & Hpv). simpl in *.
  apply elem_of_map_to_list in Hpv.
  pose proof (child_of_spec _ _ _ Hc) as ->.
  split; [by eexists|]. by exists name.
Qed.

End Listing.

Section Merging.
Import PyStr AudioChunker Pipeline.

(** What [read_all] accumulates when every listed file exists. *)
Fixpoint cat_files (sep : string) (dk : gmap string string) (files : list string)
    (acc : string) : string :=
  match files with
  | [] => acc
  | f :: rest => cat_files sep dk rest (acc ++ default "" (dk !! f) ++ sep)
  end.

Lemma read_all_ok sep files : forall acc w,
  (forall f, f ∈ files -> is_Some (disk w !! f)) ->
  read_all sep files acc w = (Ret (cat_files sep (disk w) files acc), w).
Proof.
  induction files as [|f rest IH]; intros acc w Hex; [reflexivity|].
  destruct (Hex f ltac:(left)) as [text Htext].
  simpl. unfold bind, read_file. rewrite Htext. simpl.
  apply IH. intros g Hg. apply Hex. by right.
Qed.

Lemma cat_files_ext sep (dk dk' : gmap string string) files : forall acc,
  (forall f, f ∈ files -> dk !! f = dk' !! f) ->
  cat_files sep dk files acc = cat_files sep dk' files acc.
Proof.
  induction files as [|f rest IH]; intros acc Heq; [reflexivity|].
  simpl. rewrite (Heq f) by left. apply IH. intros g Hg. apply Heq. by right.
Qed.

(** The text of the directory [d] as the merger and the compiler build it. *)
Definition dir_text (d pre sep init : string) (dk : gmap string string) : string :=
  cat_files sep dk (sorted_files d pre dk) init.

Lemma dir_text_insert_outside d pre sep init k v (dk : gmap string string) :
  child_of d k = None ->
  dir_text d pre sep init (<[k := v]> dk) = dir_text d pre sep init dk.
Proof.
  intros Hk. unfold dir_text. rewrite sorted_files_insert_outside by done.
  apply cat_files_ext. intros f Hf.
  apply sorted_files_elem in Hf as [_ (name & Hname & _)].
  apply lookup_insert_ne. intros ->. congruence.
Qed.

Definition merged_text (dk : gmap string string) : string :=
  strip (dir_text TRANSCRIPT_DIR "batch_" " " "" dk).

Definition notes_text (dk : gmap string string) : string :=
  dir_text SUMMARY_DIR "summary_" (nl ++ nl) notes_header dk.

(** The merger never raises: it writes [merged_text] and nothing else. *)
Lemma merge_transcripts_spec w :
  merge_transcripts w
  = (Ret tt, mkWorld (self w) (<[LECTURE_CLEAN_FILE := merged_text (disk w)]> (disk w)) (spawned w)).
Proof.
  unfold merge_transcripts, bind, get_disk.
  rewrite read_all_ok; [reflexivity|].
  intros f Hf. by apply sorted_files_elem in Hf as [? _].
Qed.

Lemma compile_final_notes_spec w :
  compile_final_notes w
  = (Ret tt, mkWorld (self w) (<[FINAL_NOTES_FILE := notes_text (disk w)]> (disk w)) (spawned w)).
Proof.
  unfold compile_final_notes, bind, get_disk.
  rewrite read_all_ok; [reflexivity|].
  intros f Hf. by apply sorted_files_elem in Hf as [? _].
Qed.

Lemma merged_text_stable v (dk : gmap string string) :
  merged_text (<[LECTURE_CLEAN_FILE := v]> dk) = merged_text dk.
Proof. unfold merged_text. by rewrite dir_text_insert_outside. Qed.

Lemma notes_text_stable v (dk : gmap string string) :
  notes_text (<[FINAL_NOTES_FILE := v]> dk) = notes_text dk.
Proof. unfold notes_text. by rewrite dir_text_insert_outside. Qed.

End Merging.

(** ** The stage loop

    Both stages run the same loop: test the stop event, skip the unit if its
    file exists with content, otherwise call the collaborator and write the
    file. The section states what the loop body does as hypotheses and
    derives the behaviour of the loop; the two stages instantiate it. *)

Section StageLoop.
Import PyStr AudioChunker Pipeline.

(** The input of a unit: a chunk path or a text segment. *)
Variable X : Type.
Variable stop_before : nat -> bool.
Variable unit_file : nat -> string.
(** What the collaborator answers for a unit, and the processes it starts. *)
Variable result : X -> Outcome string.
Variable calls : X -> list Spawn.
(** The loop body after the stop test. *)
Variable body : nat -> X -> M unit.

Hypothesis unit_file_inj : forall i j, unit_file i = unit_file j -> i = j.

(** The processor fields a loop body may change are the status message and
    the progress fields. *)
Definition same_flags (p p' : BatchProcessor) : Prop :=
  _stop_event p' = _stop_event p /\ is_running p' = is_running p.

Hypothesis body_skip : forall i x w,
  exists_nonempty (disk w) (unit_file i) = true ->
  exists p', body i x w = (Ret tt, mkWorld p' (disk w) (spawned w))
             /\ same_flags (self w) p'.

Hypothesis body_write : forall i x w text,
  exists_nonempty (disk w) (unit_file i) = false ->
  result x = Ret text ->
  exists p', body i x w
             = (Ret tt, mkWorld p' (<[unit_file i := text]> (disk w)) (spawned w ++ calls x))
             /\ same_flags (self w) p'.

Hypothesis body_raise : forall i x w e,
  exists_nonempty (disk w) (unit_file i) = false ->
  result x = Exc e ->
  exists p', body i x w = (Exc e, mkWorld p' (disk w) (spawned w ++ calls x))
             /\ same_flags (self w) p'.

Fixpoint stage_loop (i : nat) (xs : list X) : M unit :=
  match xs with
  | [] => ret tt
  | x :: rest =>
      observe (stop_before i) ;;;
      p <- get_self ;;
      if _stop_event p then ret tt
      else (body i x ;;; stage_loop (S i) rest)
  end.

(** The loop leaves at unit [i] when the event is set by then. *)
Lemma stage_loop_halt i x xs w :
  stop_before i = true \/ _stop_event (self w) = true ->
  exists p', stage_loop i (x :: xs) w = (Ret tt, mkWorld p' (disk w) (spawned w))
             /\ _stop_event p' = true /\ is_running p' = is_running (self w).
Proof.
  intros H. simpl. unfold bind, observe, get_self.
  destruct (stop_before i) eqn:Hs.
  - simpl. eexists. split; [reflexivity|]. done.
  - destruct H as [?|Hw]; [done|]. simpl. rewrite Hw.
    destruct w as [p d s]. simpl in *. by exists p.
Qed.

Lemma stage_loop_go i x xs w :
  stop_before i = false -> _stop_event (self w) = false ->
  stage_loop i (x :: xs) w
  = match body i x w with
    | (Ret _, w') => stage_loop (S i) xs w'
    | (Exc e, w') => (Exc e, w')
    end.
Proof.
  intros Hs Hw. simpl. unfold bind, observe, get_self. rewrite Hs. simpl.
  rewrite Hw. reflexivity.
Qed.

(** The event is not set when unit [k] is tested, the loop having started
    at unit [i] in world [w]. *)
Definition running_through (w : World) (i k : nat) : Prop :=
  _stop_event (self w) = false /\ forall j, i <= j <= k -> stop_before j = false.

(** The three ways a unit's body can end. *)
Lemma body_cases i x w :
  exists p', same_flags (self w) p' /\
    ((exists_nonempty (disk w) (unit_file i) = true /\
      body i x w = (Ret tt, mkWorld p' (disk w) (spawned w)))
     \/ (exists text, exists_nonempty (disk w) (unit_file i) = false /\
           result x = Ret text /\
           body i x w = (Ret tt, mkWorld p' (<[unit_file i := text]> (disk w))
                                         (spawned w ++ calls x)))
     \/ (exists e, exists_nonempty (disk w) (unit_file i) = false /\
           result x = Exc e /\
           body i x w = (Exc e, mkWorld p' (disk w) (spawned w ++ calls x)))).
Proof.
  destruct (exists_nonempty (disk w) (unit_file i)) eqn:Hex.
  - destruct (body_skip i x w Hex) as (p' & Hb & Hf). exists p'.
    split; [done|]. by left.
  - destruct (result x) as [text|e] eqn:Hr.
    + destruct (body_write i x w text Hex Hr) as (p' & Hb & Hf). exists p'.
      split; [done|]. right; left. by exists text.
    + destruct (body_raise i x w e Hex Hr) as (p' & Hb & Hf). exists p'.
      split; [done|]. right; right. by exists e.
Qed.

Lemma exists_nonempty_insert_ne (dk : gmap string string) q t p :
  p <> q -> exists_nonempty (<[q := t]> dk) p = exists_nonempty dk p.
Proof. intros Hne. unfold exists_nonempty. by rewrite lookup_insert_ne. Qed.

Lemma running_through_next w w2 i k :
  stop_before i = false ->
  _stop_event (self w) = false ->
  running_through w2 (S i) (S i + k) -> running_through w i (i + S k).
Proof.
  intros Hs Hw [_ Hj]. split; [done|]. intros j Hj'.
  destruct (decide (j = i)) as [->|]; [done|]. apply Hj. lia.
Qed.

Lemma running_through_prev w w2 i k :
  _stop_event (self w2) = _stop_event (self w) ->
  running_through w i (i + S k) -> running_through w2 (S i) (S i + k).
Proof.
  intros Hf [Hw Hj]. split; [congruence|]. intros j Hj'. apply Hj. lia.
Qed.

(** What one run of the loop from unit [i] over [xs] guarantees, from world
    [w] to outcome [r] and world [w']. *)
Record loop_post (i : nat) (xs : list X) (w : World) (r : Outcome unit) (w' : World) : Prop := {
  (** [is_running] is not touched and a set event stays set *)
  post_running : is_running (self w') = is_running (self w);
  post_stop : _stop_event (self w) = true -> _stop_event (self w') = true;
  (** a file is unchanged, or it is the file of a unit that was reached,
      was missing or empty, and now holds the collaborator's answer *)
  post_disk : forall p,
    disk w' !! p = disk w !! p \/
    exists k x text,
      xs !! k = Some x /\ p = unit_file (i + k) /\ running_through w i (i + k) /\
      exists_nonempty (disk w) p = false /\ result x = Ret text /\
      disk w' !! p = Some text;
  (** processes are started only for such units *)
  post_spawned : exists extra,
    spawned w' = (spawned w ++ extra)%list /\
    forall s, s ∈ extra ->
      exists k x, xs !! k = Some x /\ s ∈ calls x /\ running_through w i (i + k) /\
                  exists_nonempty (disk w) (unit_file (i + k)) = false;
  (** an exception is the collaborator's, on such a unit *)
  post_exc : forall e, r = Exc e ->
    exists k x, xs !! k = Some x /\ result x = Exc e /\ running_through w i (i + k) /\
                exists_nonempty (disk w) (unit_file (i + k)) = false;
  (** without exception every such unit has been written *)
  post_written : r = Ret tt -> forall k x,
    xs !! k = Some x -> running_through w i (i + k) ->
    exists_nonempty (disk w) (unit_file (i + k)) = false ->
    exists text, result x = Ret text /\ disk w' !! unit_file (i + k) = Some text
}.

Lemma loop_post_halt i xs w p' :
  (forall k, ~ running_through w i (i + k)) ->
  _stop_event p' = true -> is_running p' = is_running (self w) ->
  loop_post i xs w (Ret tt) (mkWorld p' (disk w) (spawned w)).
Proof.
  intros Hnot Hs Hr. split; simpl; try done.
  - intros p. by left.
  - exists []. split; [by rewrite app_nil_r|]. intros s Hs'. by apply elem_of_nil in Hs'.
  - intros _ k x _ Hrun. by apply Hnot in Hrun.
Qed.

Theorem stage_loop_post xs : forall i w,
  loop_post i xs w (stage_loop i xs w).1 (stage_loop i xs w).2.
Proof.
  induction xs as [|x xs IH]; intros i w.
  { simpl. split; simpl; try done.
    - intros p. by left.
    - exists []. split; [by rewrite app_nil_r|]. intros s Hs. by apply elem_of_nil in Hs. }
  destruct (stop_before i) eqn:Hs.
  { destruct (stage_loop_halt i x xs w (or_introl Hs)) as (p' & -> & Hp' & Hr).
    apply loop_post_halt; try done. intros k [_ Hj]. rewrite Hj in Hs by lia. done. }
  destruct (_stop_event (self w)) eqn:Hw.
  { destruct (stage_loop_halt i x xs w (or_intror Hw)) as (p' & -> & Hp' & Hr).
    apply loop_post_halt; try done. intros k [Hf _]. congruence. }
  rewrite stage_loop_go by done.
  destruct (body_cases i x w) as (p' & [Hfs Hfr] & [[Hex Hb]|[(text & Hex & Hres & Hb)|(e & Hex & Hres & Hb)]]);
    rewrite Hb.
  - (* the unit is skipped *)
    set (w2 := mkWorld p' (disk w) (spawned w)).
    specialize (IH (S i) w2). destruct IH as [Hrun Hstop Hdisk Hsp Hexc Hwr].
    assert (forall k, running_through w2 (S i) (S i + k) -> running_through w i (i + S k)) as Hnext.
    { intros k. by apply running_through_next. }
    split.
    + by rewrite Hrun.
    + congruence.
    + intros p. destruct (Hdisk p) as [Hp|(k & y & text & Hk & -> & Hr & Hne & Hy & Hp)]; [by left|].
      right. exists (S k), y, text. replace (i + S k) with (S i + k) by lia. split_and!; try done.
      replace (S i + k) with (i + S k) by lia. by apply Hnext.
    + destruct Hsp as (extra & -> & Hextra). exists extra. split; [done|].
      intros s Hin. destruct (Hextra s Hin) as (k & y & Hk & Hsy & Hr & Hne).
      exists (S k), y. replace (i + S k) with (S i + k) by lia. split_and!; try done.
      replace (S i + k) with (i + S k) by lia. by apply Hnext.
    + intros e He. destruct (Hexc e He) as (k & y & Hk & Hy & Hr & Hne).
      exists (S k), y. replace (i + S k) with (S i + k) by lia. split_and!; try done.
      replace (S i + k) with (i + S k) by lia. by apply Hnext.
    + intros Hret [|k] y Hk Hr Hne.
      * rewrite Nat.add_0_r in Hne. congruence.
      * replace (i + S k) with (S i + k) in * by lia.
        apply (Hwr Hret k y); try done.
        replace (S i + k) with (i + S k) in Hr by lia.
        by apply (running_through_prev w w2).
  - (* the unit is written *)
    set (w2 := mkWorld p' (<[unit_file i := text]> (disk w)) (spawned w ++ calls x)).
    specialize (IH (S i) w2). destruct IH as [Hrun Hstop Hdisk Hsp Hexc Hwr].
    assert (forall k, running_through w2 (S i) (S i + k) -> running_through w i (i + S k)) as Hnext.
    { intros k. by apply running_through_next. }
    assert (forall k, exists_nonempty (disk w2) (unit_file (S i + k))
                      = exists_nonempty (disk w) (unit_file (S i + k))) as Hsame.
    { intros k. apply exists_nonempty_insert_ne. intros H%unit_file_inj. lia. }
    assert (running_through w i (i + 0)) as Hrun0.
    { split; [done|]. intros j Hj. by replace j with i by lia. }
    assert (disk (stage_loop (S i) xs w2).2 !! unit_file i = Some text) as Hmine.
    { destruct (Hdisk (unit_file i)) as [Hp|(k & y & t & _ & Hp & _)].
      - rewrite Hp. apply lookup_insert_eq.
      - apply unit_file_inj in Hp. lia. }
    split.
    + by rewrite Hrun.
    + congruence.
    + intros p. destruct (decide (p = unit_file i)) as [->|Hp].
      * right. exists 0, x, text. rewrite Nat.add_0_r in *. by split_and!.
      * destruct (Hdisk p) as [Hq|(k & y & t & Hk & -> & Hr & Hne & Hy & Hq)].
        { left. rewrite Hq. by apply lookup_insert_ne. }
        right. exists (S k), y, t. replace (i + S k) with (S i + k) by lia.
        rewrite Hsame in Hne. split_and!; try done.
        replace (S i + k) with (i + S k) by lia. by apply Hnext.
    + destruct Hsp as (extra & -> & Hextra). exists (calls x ++ extra)%list.
      split; [unfold w2; simpl; by rewrite <- app_assoc|].
      intros s Hin. apply elem_of_app in Hin as [Hin|Hin].
      * exists 0, x. rewrite Nat.add_0_r in *. by split_and!.
      * destruct (Hextra s Hin) as (k & y & Hk & Hsy & Hr & Hne).
        exists (S k), y. replace (i + S k) with (S i + k) by lia.
        rewrite Hsame in Hne. split_and!; try done.
        replace (S i + k) with (i + S k) by lia. by apply Hnext.
    + intros e He. destruct (Hexc e He) as (k & y & Hk & Hy & Hr & Hne).
      exists (S k), y. replace (i + S k) with (S i + k) by lia.
      rewrite Hsame in Hne. split_and!; try done.
      replace (S i + k) with (i + S k) by lia. by apply Hnext.
    + intros Hret [|k] y Hk Hr Hne.
      * rewrite Nat.add_0_r. injection Hk as <-. by exists text.
      * replace (i + S k) with (S i + k) in * by lia.
        apply (Hwr Hret k y); try done.
        -- replace (S i + k) with (i + S k) in Hr by lia.
           by apply (running_through_prev w w2).
        -- by rewrite Hsame.
  - (* the collaborator raises *)
    assert (running_through w i (i + 0)) as Hrun0.
    { split; [done|]. intros j Hj. by replace j with i by lia. }
    split; simpl; try done.
    + congruence.
    + intros p. by left.
    + exists (calls x). split; [done|]. intros s Hin.
      exists 0, x. rewrite Nat.add_0_r in *. by split_and!.
    + intros e' [= <-]. exists 0, x. rewrite Nat.add_0_r in *. by split_and!.
Qed.

(** The guarantee depends on the starting world only through its files, its
    process trace and the two flags. *)
Lemma loop_post_start i xs w0 w r w' :
  disk w0 = disk w -> spawned w0 = spawned w -> same_flags (self w) (self w0) ->
  loop_post i xs w0 r w' -> loop_post i xs w r w'.
Proof.
  intros Hd Hs [Hf Hr] [Hrun Hstop Hdisk Hsp Hexc Hwr].
  assert (forall k, running_through w0 i k <-> running_through w i k) as Hrt.
  { intros k. unfold running_through. by rewrite Hf. }
  split.
  - congruence.
  - intros H. apply Hstop. congruence.
  - intros p. destruct (Hdisk p) as [Hp|(k & x & text & ? & ? & ? & ? & ? & ?)].
    + left. congruence.
    + right. exists k, x, text. rewrite <- Hrt, <- Hd. by split_and!.
  - destruct Hsp as (extra & He & Hin). exists extra. split; [congruence|].
    intros s Hs'. destruct (Hin s Hs') as (k & x & ? & ? & ? & ?).
    exists k, x. rewrite <- Hrt, <- Hd. by split_and!.
  - intros e He. destruct (Hexc e He) as (k & x & ? & ? & ? & ?).
    exists k, x. rewrite <- Hrt, <- Hd. by split_and!.
  - intros Hret k x Hk Hr' Hne. rewrite <- Hrt in Hr'. rewrite <- Hd in Hne. eauto.
Qed.


(** A loop that ends without exception although [stop()] was called before
    one of its units has seen the event. *)
Lemma stage_loop_stop_seen xs : forall i w,
  (stage_loop i xs w).1 = Ret tt ->
  (exists k, k < length xs /\ stop_before (i + k) = true) ->
  _stop_event (self (stage_loop i xs w).2) = true.
Proof.
  induction xs as [|x xs IH]; intros i w Hret (k & Hk & Hs); [simpl in Hk; lia|].
  destruct (stop_before i) eqn:Hi.
  { by destruct (stage_loop_halt i x xs w (or_introl Hi)) as (p' & -> & Hp' & _). }
  destruct (_stop_event (self w)) eqn:Hw.
  { by destruct (stage_loop_halt i x xs w (or_intror Hw)) as (p' & -> & Hp' & _). }
  rewrite stage_loop_go in * by done.
  destruct k as [|k]; [rewrite Nat.add_0_r in Hs; congruence|].
  destruct (body i x w) as [[[]|e] w2]; [|done].
  apply IH; [done|]. exists k. split; [simpl in Hk; lia|].
  by replace (S i + k) with (i + S k) by lia.
Qed.

End StageLoop.

(** ** The two stages as instances of the loop *)

Section Stages.
Import PyStr AudioChunker Pipeline.

Variable env : Env.

(** The text [_transcribe_file] returns for a chunk, and the process it
    starts. *)
Definition transcribe_text (file_path : string) : string :=
  if realtimestt_importable env then
    match run_worker env file_path with
    | WorkerExit returncode stdout => if (returncode =? 0)%Z then strip stdout else ""
    | WorkerRaise _ => ""
    end
  else "[Error: RealtimeSTT not found]".

Definition transcribe_spawns (file_path : string) : list Spawn :=
  if realtimestt_importable env
  then [mkSpawn [sys_executable env; "transcribe_worker.py"; file_path] ""]
  else [].

Lemma _transcribe_file_spec file_path w :
  _transcribe_file env file_path w
  = (Ret (transcribe_text file_path),
     mkWorld (self w) (disk w) (spawned w ++ transcribe_spawns file_path)).
Proof.
  unfold _transcribe_file, transcribe_text, transcribe_spawns.
  destruct (realtimestt_importable env).
  - unfold bind, log_spawn. simpl.
    destruct (run_worker env file_path) as [rc out|e]; [destruct (rc =? 0)%Z|]; reflexivity.
  - destruct w. unfold ret. simpl. by rewrite app_nil_r.
Qed.

(** The answer of [_summarize_text_chunk] for a segment. *)
Definition summarize_result (text : string) : Outcome string :=
  match run_ollama env (summary_prompt text) with
  | OllamaExit stdout => Ret (strip stdout)
  | OllamaNotFound => Ret "[Error: Ollama not found]"
  | OllamaRaise e => Exc e
  end.

Definition summarize_spawns (text : string) : list Spawn :=
  [mkSpawn ["ollama"; "run"; "phi"] (summary_prompt text)].

Lemma _summarize_text_chunk_spec text w :
  _summarize_text_chunk env text w
  = (summarize_result text,
     mkWorld (self w) (disk w) (spawned w ++ summarize_spawns text)).
Proof.
  unfold _summarize_text_chunk, summarize_result, summarize_spawns, bind, log_spawn. simpl.
  by destruct (run_ollama env (summary_prompt text)).
Qed.

Lemma transcribe_unit_skip total i x w :
  exists_nonempty (disk w) (batch_file i) = true ->
  exists p', transcribe_unit env total i x w = (Ret tt, mkWorld p' (disk w) (spawned w))
             /\ same_flags (self w) p'.
Proof.
  intros Hex. unfold transcribe_unit, bind, set_status, modify_self, get_disk. simpl.
  rewrite Hex. simpl. eexists. split; [reflexivity|]. done.
Qed.

Lemma transcribe_unit_write total i x w text :
  exists_nonempty (disk w) (batch_file i) = false ->
  Ret (transcribe_text x) = Ret text ->
  exists p', transcribe_unit env total i x w
             = (Ret tt, mkWorld p' (<[batch_file i := text]> (disk w))
                                (spawned w ++ transcribe_spawns x))
             /\ same_flags (self w) p'.
Proof.
  intros Hex [= <-]. unfold transcribe_unit, bind, set_status, modify_self, get_disk. simpl.
  rewrite Hex. rewrite _transcribe_file_spec. simpl.
  eexists. split; [reflexivity|]. done.
Qed.

Lemma transcribe_unit_raise total i x w e :
  exists_nonempty (disk w) (batch_file i) = false ->
  Ret (transcribe_text x) = Exc e ->
  exists p', transcribe_unit env total i x w
             = (Exc e, mkWorld p' (disk w) (spawned w ++ transcribe_spawns x))
             /\ same_flags (self w) p'.
Proof. done. Qed.

Lemma transcribe_loop_stage total chunks : forall i,
  transcribe_loop env total i chunks
  = stage_loop string (stop_before_transcribing env) (transcribe_unit env total) i chunks.
Proof. induction chunks as [|x xs IH]; intros i; simpl; [done|]. by rewrite IH. Qed.

Lemma summarize_unit_skip total i x w :
  exists_nonempty (disk w) (summary_file i) = true ->
  exists p', summarize_unit env total i x w = (Ret tt, mkWorld p' (disk w) (spawned w))
             /\ same_flags (self w) p'.
Proof.
  intros Hex. unfold summarize_unit, bind, set_status, modify_self, get_disk. simpl.
  rewrite Hex. simpl. eexists. split; [reflexivity|]. done.
Qed.

Lemma summarize_unit_write total i x w text :
  exists_nonempty (disk w) (summary_file i) = false ->
  summarize_result x = Ret text ->
  exists p', summarize_unit env total i x w
             = (Ret tt, mkWorld p' (<[summary_file i := text]> (disk w))
                                (spawned w ++ summarize_spawns x))
             /\ same_flags (self w) p'.
Proof.
  intros Hex Hr. unfold summarize_unit, bind, set_status, modify_self, get_disk. simpl.
  rewrite Hex. rewrite _summarize_text_chunk_spec, Hr. simpl.
  eexists. split; [reflexivity|]. done.
Qed.

Lemma summarize_unit_raise total i x w e :
  exists_nonempty (disk w) (summary_file i) = false ->
  summarize_result x = Exc e ->
  exists p', summarize_unit env total i x w
             = (Exc e, mkWorld p' (disk w) (spawned w ++ summarize_spawns x))
             /\ same_flags (self w) p'.
Proof.
  intros Hex Hr. unfold summarize_unit, bind, set_status, modify_self, get_disk. simpl.
  rewrite Hex. rewrite _summarize_text_chunk_spec, Hr. simpl.
  eexists. split; [reflexivity|]. done.
Qed.

Lemma summarize_loop_stage total chunks : forall i,
  summarize_loop env total i chunks
  = stage_loop string (stop_before_summarizing env) (summarize_unit env total) i chunks.
Proof. induction chunks as [|x xs IH]; intros i; simpl; [done|]. by rewrite IH. Qed.

(** The postcondition of the transcription loop. *)
Definition transcribe_post (i : nat) (chunks : list string) (w : World)
    (r : Outcome unit) (w' : World) : Prop :=
  loop_post string (stop_before_transcribing env) batch_file
            (fun x => Ret (transcribe_text x)) transcribe_spawns i chunks w r w'.

Definition summarize_post (i : nat) (chunks : list string) (w : World)
    (r : Outcome unit) (w' : World) : Prop :=
  loop_post string (stop_before_summarizing env) summary_file
            summarize_result summarize_spawns i chunks w r w'.

Lemma transcribe_loop_post total chunks i w :
  transcribe_post i chunks w (transcribe_loop env total i chunks w).1
                  (transcribe_loop env total i chunks w).2.
Proof.
  rewrite transcribe_loop_stage. apply stage_loop_post.
  - apply batch_file_inj.
  - apply transcribe_unit_skip.
  - apply transcribe_unit_write.
  - apply transcribe_unit_raise.
Qed.

Lemma summarize_loop_post total chunks i w :
  summarize_post i chunks w (summarize_loop env total i chunks w).1
                 (summarize_loop env total i chunks w).2.
Proof.
  rewrite summarize_loop_stage. apply stage_loop_post.
  - apply summary_file_inj.
  - apply summarize_unit_skip.
  - apply summarize_unit_write.
  - apply summarize_unit_raise.
Qed.

(** The transcription loop never raises. *)
Lemma transcribe_loop_ret total chunks i w :
  (transcribe_loop env total i chunks w).1 = Ret tt.
Proof.
  pose proof (transcribe_loop_post total chunks i w) as Hp.
  destruct (transcribe_loop env total i chunks w) as [[[]|e] w']; [done|].
  by destruct (post_exc _ _ _ _ _ _ _ _ _ _ Hp e eq_refl) as (k & x & _ & ? & _).
Qed.

End Stages.

(** ** The stage functions *)

(** Reduce the record projections of the processor and the world, and
    nothing else. *)
Ltac world_simpl :=
  cbn [Pipeline.self Pipeline.disk Pipeline.spawned
       Pipeline.transcription_progress Pipeline.summarization_progress
       Pipeline.status_message Pipeline.is_running Pipeline._stop_event].

Section StageFunctions.
Import PyStr AudioChunker Pipeline.

Variable env : Env.

(** The file handed to the chunker and the chunk paths it returns. *)
Definition audio_for_chunking (audio_file_path : string) : string :=
  match decode env audio_file_path with
  | Some _ => if normalize_ok env
              then replace audio_file_path ".wav" "_norm.wav"
              else audio_file_path
  | None => audio_file_path
  end.

Definition chunk_paths (audio_file_path : string) : list string :=
  map chunk_path
      (default [] (split_audio (decode env (audio_for_chunking audio_file_path)) 30000)).

(** The default chunk length is not zero: the division does not raise. *)
Lemma split_audio_default audio :
  split_audio audio 30000 = Some (default [] (split_audio audio 30000)).
Proof. by destruct audio. Qed.

(** The chunk paths are numbered in order, hence pairwise distinct. *)
Lemma chunk_paths_lookup path k x :
  chunk_paths path !! k = Some x ->
  x = path_join output_dir ("chunk_" ++ fmt_03d k ++ ".wav").
Proof.
  unfold chunk_paths. rewrite list_lookup_fmap.
  destruct (decode env (audio_for_chunking path)) as [d|]; [|done].
  simpl. unfold split_loaded. rewrite list_lookup_fmap.
  destruct (seq 0 (Z.to_nat (ceil_div d 30000)) !! k) as [j|] eqn:Hj; [|done].
  apply lookup_seq in Hj as [-> _]. by intros [= <-].
Qed.

Lemma chunk_paths_inj path i k x :
  chunk_paths path !! i = Some x -> chunk_paths path !! k = Some x -> i = k.
Proof.
  intros Hi%chunk_paths_lookup Hk%chunk_paths_lookup. rewrite Hi in Hk.
  unfold path_join in Hk. do 3 apply String.app_inj in Hk.
  apply str_app_inv_r in Hk. by apply fmt_03d_inj.
Qed.

(** No chunk: the stage reports the failure and returns [False]. *)
Lemma process_audio_batches_no_chunk path w :
  chunk_paths path = [] ->
  exists p', process_audio_batches env path w = (Ret false, mkWorld p' (disk w) (spawned w))
             /\ same_flags (self w) p'
             /\ status_message p' = "Audio chunking failed.".
Proof.
  unfold chunk_paths. intros Hc. apply fmap_nil_inv in Hc.
  unfold process_audio_batches, bind, set_status, set_transcription_progress, modify_self.
  simpl. fold (audio_for_chunking path). unfold chunker_split_audio.
  rewrite split_audio_default, Hc. simpl.
  eexists. split; [reflexivity|]. done.
Qed.

(** An export that raises ends the stage before any unit. *)
Lemma process_audio_batches_export_error path w e :
  chunk_paths path <> [] -> export_error env = Some e ->
  exists p', process_audio_batches env path w = (Exc e, mkWorld p' (disk w) (spawned w))
             /\ same_flags (self w) p'.
Proof.
  unfold chunk_paths. intros Hc He.
  unfold process_audio_batches, bind, set_status, set_transcription_progress, modify_self.
  simpl. fold (audio_for_chunking path). unfold chunker_split_audio.
  rewrite split_audio_default.
  destruct (default [] (split_audio (decode env (audio_for_chunking path)) 30000))
    as [|c cs]; [done|].
  rewrite He. simpl. eexists. split; [reflexivity|]. done.
Qed.

(** Otherwise the loop runs over the chunks, the merger writes the cleaned
    transcript, the progress is 1.0 and the stage returns [True], whether or
    not the loop was left early. *)
Lemma process_audio_batches_run path w :
  chunk_paths path <> [] -> export_error env = None ->
  exists wl p',
    transcribe_post env 0 (chunk_paths path) w (Ret tt) wl /\
    ((exists k, k < length (chunk_paths path) /\ stop_before_transcribing env k = true) ->
     _stop_event (self wl) = true) /\
    process_audio_batches env path w
    = (Ret true, mkWorld p' (<[LECTURE_CLEAN_FILE := merged_text (disk wl)]> (disk wl))
                         (spawned wl)) /\
    same_flags (self wl) p' /\
    transcription_progress p' = 1%Q /\
    status_message p' = "Merging transcripts...".
Proof.
  unfold chunk_paths. intros Hc He.
  unfold process_audio_batches.
  unfold bind at 1 2 3 4. unfold set_status at 1 2, set_transcription_progress at 1, modify_self.
  simpl. fold (audio_for_chunking path). unfold chunker_split_audio.
  rewrite split_audio_default.
  destruct (default [] (split_audio (decode env (audio_for_chunking path)) 30000))
    as [|c cs] eqn:Hs; [done|].
  rewrite He. unfold ret at 1. cbv beta iota.
  set (chunks := map chunk_path (c :: cs)).
  change (map chunk_path (c :: cs)) with chunks.
  assert (exists x xs, chunks = x :: xs) as (x & xs & Hch) by (by eexists _, _).
  rewrite Hch. rewrite <- Hch.
  unfold bind at 1. unfold set_transcription_progress at 1, modify_self. simpl self. simpl disk. simpl spawned.
  set (w0 := mkWorld _ (disk w) (spawned w)).
  pose proof (transcribe_loop_ret env (length chunks) chunks 0 w0) as Hret.
  unfold bind at 1.
  destruct (transcribe_loop env (length chunks) 0 chunks w0) as [r wl] eqn:Hl.
  simpl in Hret. subst r.
  pose proof (transcribe_loop_post env (length chunks) chunks 0 w0) as Hpost.
  rewrite Hl in Hpost. simpl in Hpost.
  exists wl. eexists. split.
  { eapply loop_post_start; [| | |exact Hpost]; done. }
  split.
  { intros Hseen.
    pose proof (stage_loop_stop_seen string (stop_before_transcribing env)
                  (transcribe_unit env (length chunks)) chunks 0 w0) as Hsn.
    rewrite <- transcribe_loop_stage, Hl in Hsn. by apply Hsn. }
  unfold bind, set_status, modify_self. simpl. rewrite merge_transcripts_spec. simpl.
  split; [reflexivity|]. done.
Qed.

Lemma split_text_into_chunks_default text :
  exists segments, split_text_into_chunks text 500 = Some segments.
Proof. unfold split_text_into_chunks. simpl. by eexists. Qed.

#[local] Arguments split_text_into_chunks : simpl never.

(** The segments the summarization stage works on. *)
Definition text_segments (dk : gmap string string) : list string :=
  match dk !! LECTURE_CLEAN_FILE with
  | Some text => default [] (split_text_into_chunks text 500)
  | None => []
  end.

(** No cleaned transcript, or one without a word: the stage returns
    [False] and touches no file. *)
Lemma process_summary_batches_idle w :
  text_segments (disk w) = [] ->
  exists p', process_summary_batches env w = (Ret false, mkWorld p' (disk w) (spawned w))
             /\ same_flags (self w) p'
             /\ summarization_progress p' = 0%Q.
Proof.
  unfold text_segments. intros Hseg.
  unfold process_summary_batches, bind, set_status, set_summarization_progress,
    modify_self, get_disk, read_file.
  world_simpl. destruct (disk w !! LECTURE_CLEAN_FILE) as [text|] eqn:Ht.
  - world_simpl.
    rewrite Ht.
    destruct (split_text_into_chunks_default text) as (segs & Hsegs).
    rewrite Hsegs in *. simpl in Hseg. subst segs. simpl.
    eexists. split; [reflexivity|]. done.
  - simpl.
    eexists. split; [reflexivity|]. done.
Qed.

(** Otherwise the loop runs over the segments; an exception of the
    collaborator leaves the stage, and without one the compiler writes the
    notes, the progress is 1.0 and the stage returns [True]. *)
Lemma process_summary_batches_run w :
  text_segments (disk w) <> [] ->
  exists r wl,
    summarize_post env 0 (text_segments (disk w)) w r wl /\
    match r with
    | Exc e => process_summary_batches env w = (Exc e, wl)
    | Ret _ =>
        exists p',
          process_summary_batches env w
          = (Ret true, mkWorld p' (<[FINAL_NOTES_FILE := notes_text (disk wl)]> (disk wl))
                               (spawned wl)) /\
          same_flags (self wl) p' /\
          summarization_progress p' = 1%Q /\
          status_message p' = "Compiling final notes..."
    end.
Proof.
  unfold text_segments. intros Hseg.
  unfold process_summary_batches, bind, set_status, set_summarization_progress,
    modify_self, get_disk, read_file, ret.
  world_simpl.
  destruct (disk w !! LECTURE_CLEAN_FILE) as [text|] eqn:Ht; [|done].
  world_simpl. rewrite Ht.
  destruct (split_text_into_chunks_default text) as (segs & Hsegs).
  rewrite Hsegs in *. simpl in Hseg. cbn [default].
  rewrite decide_False by (by destruct segs).
  set (w0 := mkWorld _ (disk w) (spawned w)).
  destruct (summarize_loop env (length segs) 0 segs w0) as [r wl] eqn:Hl.
  pose proof (summarize_loop_post env (length segs) segs 0 w0) as Hpost.
  rewrite Hl in Hpost. simpl in Hpost.
  exists r, wl. split.
  { eapply loop_post_start; [| | |exact Hpost]; done. }
  destruct r as [[]|e]; [|done].
  world_simpl. rewrite compile_final_notes_spec. world_simpl.
  eexists. split; [reflexivity|]. done.
Qed.

(** *** What a call of each stage function guarantees *)

(** The transcription stage was still running when it tested unit [k]. *)
Definition transcribing_at (w : World) (k : nat) : Prop :=
  running_through (stop_before_transcribing env) w 0 k.

Definition summarizing_at (w : World) (k : nat) : Prop :=
  running_through (stop_before_summarizing env) w 0 k.

Lemma process_audio_batches_result path w :
  (process_audio_batches env path w).1
  = match chunk_paths path with
    | [] => Ret false
    | _ :: _ => match export_error env with
                | Some e => Exc e
                | None => Ret true
                end
    end.
Proof.
  destruct (chunk_paths path) as [|x xs] eqn:Hc.
  - destruct (process_audio_batches_no_chunk path w Hc) as (p' & -> & _). done.
  - assert (chunk_paths path <> []) as Hne by (by rewrite Hc).
    destruct (export_error env) as [e|] eqn:He.
    + destruct (process_audio_batches_export_error path w e Hne He) as (p' & -> & _). done.
    + destruct (process_audio_batches_run path w Hne He) as (wl & p' & _ & _ & -> & _). done.
Qed.

(** The files after the transcription stage: apart from the cleaned
    transcript, a file is as before or is a unit that was reached, was
    missing or empty, and holds the transcription of its chunk. *)
Lemma process_audio_batches_disk path w p :
  p <> LECTURE_CLEAN_FILE ->
  let w' := (process_audio_batches env path w).2 in
  disk w' !! p = disk w !! p \/
  exists k x, chunk_paths path !! k = Some x /\ p = batch_file k /\
              transcribing_at w k /\ exists_nonempty (disk w) p = false /\
              disk w' !! p = Some (transcribe_text env x).
Proof.
  intros Hp. simpl.
  destruct (chunk_paths path) as [|x xs] eqn:Hc.
  { destruct (process_audio_batches_no_chunk path w Hc) as (p' & -> & _). by left. }
  assert (chunk_paths path <> []) as Hne by (by rewrite Hc).
  destruct (export_error env) as [e|] eqn:He.
  { destruct (process_audio_batches_export_error path w e Hne He) as (p' & -> & _). by left. }
  destruct (process_audio_batches_run path w Hne He) as (wl & p' & Hpost & _ & -> & _).
  simpl. rewrite lookup_insert_ne by done. rewrite Hc in Hpost.
  destruct (post_disk _ _ _ _ _ _ _ _ _ _ Hpost p) as [Hq|(k & y & text & Hk & -> & Hr & Hex & [= <-] & Hq)].
  - by left.
  - right. exists k, y. by split_and!.
Qed.

(** Every reached unit that was missing or empty has been written, unless
    the export of the chunks raised. *)
Lemma process_audio_batches_written path w k x :
  export_error env = None ->
  chunk_paths path !! k = Some x -> transcribing_at w k ->
  exists_nonempty (disk w) (batch_file k) = false ->
  disk (process_audio_batches env path w).2 !! batch_file k = Some (transcribe_text env x).
Proof.
  intros He Hk Hr Hex.
  assert (chunk_paths path <> []) as Hne by (intros H; by rewrite H in Hk).
  destruct (process_audio_batches_run path w Hne He) as (wl & p' & Hpost & _ & -> & _).
  simpl. rewrite lookup_insert_ne.
  - destruct (post_written _ _ _ _ _ _ _ _ _ _ Hpost eq_refl k x Hk Hr Hex) as (text & [= <-] & Hq).
    done.
  - unfold LECTURE_CLEAN_FILE, batch_file, path_join, TRANSCRIPT_DIR.
    rewrite str_app_cons. discriminate.
Qed.

(** The stage starts the worker only for such units. *)
Lemma process_audio_batches_spawned path w :
  exists extra,
    spawned (process_audio_batches env path w).2 = (spawned w ++ extra)%list /\
    forall s, s ∈ extra ->
      exists k x, chunk_paths path !! k = Some x /\ s ∈ transcribe_spawns env x /\
                  transcribing_at w k /\ exists_nonempty (disk w) (batch_file k) = false.
Proof.
  assert (exists extra : list Spawn, spawned w = (spawned w ++ extra)%list /\
            forall s, s ∈ extra ->
              exists k x, chunk_paths path !! k = Some x /\ s ∈ transcribe_spawns env x /\
                transcribing_at w k /\ exists_nonempty (disk w) (batch_file k) = false) as Hnone.
  { exists []. split; [by rewrite app_nil_r|]. intros s Hs. by apply elem_of_nil in Hs. }
  destruct (chunk_paths path) as [|x xs] eqn:Hc.
  { destruct (process_audio_batches_no_chunk path w Hc) as (p' & -> & _). exact Hnone. }
  assert (chunk_paths path <> []) as Hne by (by rewrite Hc).
  destruct (export_error env) as [e|] eqn:He.
  { destruct (process_audio_batches_export_error path w e Hne He) as (p' & -> & _). exact Hnone. }
  destruct (process_audio_batches_run path w Hne He) as (wl & p' & Hpost & _ & -> & _).
  simpl. rewrite Hc in Hpost. exact (post_spawned _ _ _ _ _ _ _ _ _ _ Hpost).
Qed.

(** The stage leaves [is_running] alone and never clears the stop event. *)
Lemma process_audio_batches_flags path w :
  let w' := (process_audio_batches env path w).2 in
  is_running (self w') = is_running (self w) /\
  (_stop_event (self w) = true -> _stop_event (self w') = true).
Proof.
  simpl. destruct (chunk_paths path) as [|x xs] eqn:Hc.
  { destruct (process_audio_batches_no_chunk path w Hc) as (p' & -> & [Hf Hr] & _).
    simpl. split; congruence. }
  assert (chunk_paths path <> []) as Hne by (by rewrite Hc).
  destruct (export_error env) as [e|] eqn:He.
  { destruct (process_audio_batches_export_error path w e Hne He) as (p' & -> & [Hf Hr]).
    simpl. split; congruence. }
  destruct (process_audio_batches_run path w Hne He) as (wl & p' & Hpost & _ & -> & [Hf Hr] & _).
  simpl. destruct Hpost as [Hrun Hstop _ _ _ _]. split; [congruence|].
  intros H. rewrite Hf. by apply Hstop.
Qed.

(** The summarization stage: the same guarantees, except that the
    collaborator may raise and end the stage. *)
Lemma process_summary_batches_disk w p :
  p <> FINAL_NOTES_FILE ->
  let w' := (process_summary_batches env w).2 in
  disk w' !! p = disk w !! p \/
  exists k x text, text_segments (disk w) !! k = Some x /\ p = summary_file k /\
                   summarizing_at w k /\ exists_nonempty (disk w) p = false /\
                   summarize_result env x = Ret text /\
                   disk w' !! p = Some text.
Proof.
  intros Hp. simpl.
  destruct (text_segments (disk w)) as [|x xs] eqn:Hc.
  { destruct (process_summary_batches_idle w Hc) as (p' & -> & _). by left. }
  assert (text_segments (disk w) <> []) as Hne by (by rewrite Hc).
  destruct (process_summary_batches_run w Hne) as (r & wl & Hpost & Hr).
  rewrite Hc in Hpost.
  assert (disk wl !! p = disk w !! p \/
          exists k y text, (x :: xs) !! k = Some y /\ p = summary_file k /\
            summarizing_at w k /\ exists_nonempty (disk w) p = false /\
            summarize_result env y = Ret text /\ disk wl !! p = Some text) as Hl.
  { destruct (post_disk _ _ _ _ _ _ _ _ _ _ Hpost p) as [Hq|(k & y & text & H)]; [by left|].
    right. by exists k, y, text. }
  destruct r as [[]|e].
  - destruct Hr as (p' & -> & _). simpl. by rewrite lookup_insert_ne.
  - by rewrite Hr.
Qed.

Lemma process_summary_batches_written w k x :
  (process_summary_batches env w).1 = Ret true ->
  text_segments (disk w) !! k = Some x -> summarizing_at w k ->
  exists_nonempty (disk w) (summary_file k) = false ->
  exists text, summarize_result env x = Ret text /\
               disk (process_summary_batches env w).2 !! summary_file k = Some text.
Proof.
  intros Hret Hk Hrun Hex.
  assert (text_segments (disk w) <> []) as Hne by (intros H; by rewrite H in Hk).
  destruct (process_summary_batches_run w Hne) as (r & wl & Hpost & Hr).
  destruct r as [[]|e].
  - destruct Hr as (p' & Heq & _). rewrite Heq. simpl.
    destruct (post_written _ _ _ _ _ _ _ _ _ _ Hpost eq_refl k x Hk Hrun Hex) as (text & Ht & Hq).
    exists text. split; [done|]. rewrite lookup_insert_ne; [done|].
    unfold FINAL_NOTES_FILE, summary_file, path_join, NOTES_DIR, SUMMARY_DIR.
    rewrite !str_app_cons. discriminate.
  - rewrite Hr in Hret. done.
Qed.

Lemma process_summary_batches_spawned w :
  exists extra,
    spawned (process_summary_batches env w).2 = (spawned w ++ extra)%list /\
    forall s, s ∈ extra ->
      exists k x, text_segments (disk w) !! k = Some x /\ s ∈ summarize_spawns x /\
                  summarizing_at w k /\ exists_nonempty (disk w) (summary_file k) = false.
Proof.
  destruct (text_segments (disk w)) as [|x xs] eqn:Hc.
  { destruct (process_summary_batches_idle w Hc) as (p' & -> & _).
    exists []. split; [by rewrite app_nil_r|]. intros s Hs. by apply elem_of_nil in Hs. }
  assert (text_segments (disk w) <> []) as Hne by (by rewrite Hc).
  destruct (process_summary_batches_run w Hne) as (r & wl & Hpost & Hr).
  rewrite Hc in Hpost. pose proof (post_spawned _ _ _ _ _ _ _ _ _ _ Hpost) as Hsp.
  destruct r as [[]|e].
  - destruct Hr as (p' & -> & _). exact Hsp.
  - rewrite Hr. exact Hsp.
Qed.

Lemma process_summary_batches_flags w :
  let w' := (process_summary_batches env w).2 in
  is_running (self w') = is_running (self w) /\
  (_stop_event (self w) = true -> _stop_event (self w') = true).
Proof.
  simpl. destruct (text_segments (disk w)) as [|x xs] eqn:Hc.
  { destruct (process_summary_batches_idle w Hc) as (p' & -> & [Hf Hr] & _).
    simpl. split; congruence. }
  assert (text_segments (disk w) <> []) as Hne by (by rewrite Hc).
  destruct (process_summary_batches_run w Hne) as (r & wl & Hpost & Hr).
  destruct Hpost as [Hrun Hstop _ _ _ _].
  destruct r as [[]|e].
  - destruct Hr as (p' & -> & [Hf Hr'] & _). simpl. split; [congruence|].
    intros H. rewrite Hf. by apply Hstop.
  - rewrite Hr. simpl. split; [done|]. exact Hstop.
Qed.

(** Nothing is ever removed by a stage. *)
Lemma process_audio_batches_keeps path w p :
  is_Some (disk w !! p) -> is_Some (disk (process_audio_batches env path w).2 !! p).
Proof.
  intros Hp. destruct (decide (p = LECTURE_CLEAN_FILE)) as [->|Hne].
  - destruct (chunk_paths path) as [|x xs] eqn:Hc.
    { by destruct (process_audio_batches_no_chunk path w Hc) as (p' & -> & _). }
    assert (chunk_paths path <> []) as Hne by (by rewrite Hc).
    destruct (export_error env) as [e|] eqn:He.
    { by destruct (process_audio_batches_export_error path w e Hne He) as (p' & -> & _). }
    destruct (process_audio_batches_run path w Hne He) as (wl & p' & _ & _ & -> & _).
    simpl. rewrite lookup_insert_eq. by eexists.
  - destruct (process_audio_batches_disk path w p Hne) as [->|(k & x & _ & _ & _ & _ & ->)];
      [done|by eexists].
Qed.

Lemma process_summary_batches_keeps w p :
  is_Some (disk w !! p) -> is_Some (disk (process_summary_batches env w).2 !! p).
Proof.
  intros Hp. destruct (decide (p = FINAL_NOTES_FILE)) as [->|Hne].
  - destruct (text_segments (disk w)) as [|x xs] eqn:Hc.
    { by destruct (process_summary_batches_idle w Hc) as (p' & -> & _). }
    assert (text_segments (disk w) <> []) as Hne by (by rewrite Hc).
    destruct (process_summary_batches_run w Hne) as (r & wl & Hpost & Hr).
    destruct r as [[]|e].
    + destruct Hr as (p' & -> & _). simpl. rewrite lookup_insert_eq. by eexists.
    + rewrite Hr. simpl.
      destruct (post_disk _ _ _ _ _ _ _ _ _ _ Hpost FINAL_NOTES_FILE)
        as [->|(k & y & text & _ & _ & _ & _ & _ & ->)]; [done|by eexists].
  - destruct (process_summary_batches_disk w p Hne) as [->|(k & x & text & _ & _ & _ & _ & _ & ->)];
      [done|by eexists].
Qed.




(** The summarization stage returns [True] when there are segments and the
    collaborator raises for none of them. *)
Lemma process_summary_batches_result w :
  text_segments (disk w) <> [] ->
  (forall k x e, text_segments (disk w) !! k = Some x -> summarize_result env x <> Exc e) ->
  (process_summary_batches env w).1 = Ret true.
Proof.
  intros Hne Hok.
  destruct (process_summary_batches_run w Hne) as (r & wl & Hpost & Hr).
  destruct r as [[]|e].
  - by destruct Hr as (p' & -> & _).
  - destruct (post_exc _ _ _ _ _ _ _ _ _ _ Hpost e eq_refl) as (k & x & Hk & Hx & _).
    by apply (Hok k x e Hk) in Hx.
Qed.

(** A unit file with content is left as it is by both stages. *)
Lemma process_audio_batches_skips path w i :
  exists_nonempty (disk w) (batch_file i) = true ->
  disk (process_audio_batches env path w).2 !! batch_file i = disk w !! batch_file i.
Proof.
  intros Hex.
  destruct (process_audio_batches_disk path w (batch_file i) (batch_file_ne_clean i))
    as [Hp|(k & x & _ & _ & _ & Hno & _)]; [done|congruence].
Qed.

Lemma process_summary_batches_skips w i :
  exists_nonempty (disk w) (summary_file i) = true ->
  disk (process_summary_batches env w).2 !! summary_file i = disk w !! summary_file i.
Proof.
  intros Hex.
  destruct (process_summary_batches_disk w (summary_file i) (summary_file_ne_notes i))
    as [Hp|(k & x & t & _ & _ & _ & Hno & _)]; [done|congruence].
Qed.

End StageFunctions.

(** ** The pipeline thread *)

Section PipelineThread.
Import PyStr AudioChunker Pipeline.

Variable env : Env.

(** [run_pipeline] returns normally whatever its body does: the [finally]
    clause clears [is_running], and an exception ends up in the status
    message. *)
Lemma run_pipeline_cases w :
  match pipeline_body env w with
  | (Ret _, w1) =>
      run_pipeline env w
      = (Ret tt, mkWorld (mkBP (transcription_progress (self w1))
                               (summarization_progress (self w1))
                               (status_message (self w1)) false
                               (_stop_event (self w1)))
                         (disk w1) (spawned w1))
  | (Exc e, w1) =>
      run_pipeline env w
      = (Ret tt, mkWorld (mkBP (transcription_progress (self w1))
                               (summarization_progress (self w1))
                               ("Error: " ++ e) false
                               (_stop_event (self w1)))
                         (disk w1) (spawned w1))
  end.
Proof.
  unfold run_pipeline, try_except_finally.
  destruct (pipeline_body env w) as [[[]|e] w1]; reflexivity.
Qed.

(** The body is the transcription stage followed, when that returned
    [True], by the summarization stage. *)
Lemma pipeline_body_cases w :
  pipeline_body env w
  = match process_audio_batches env RECORDING_FILE w with
    | (Ret true, w1) =>
        match process_summary_batches env w1 with
        | (Ret _, w2) => (Ret tt, w2)
        | (Exc e, w2) => (Exc e, w2)
        end
    | (Ret false, w1) => (Ret tt, w1)
    | (Exc e, w1) => (Exc e, w1)
    end.
Proof.
  unfold pipeline_body, bind.
  by destruct (process_audio_batches env RECORDING_FILE w) as [[[]|e] w1].
Qed.

End PipelineThread.

(** * The claims of the specification *)

Import PyStr AudioChunker Pipeline.

(** C5. For a loaded audio of duration [D] ms and a chunk length [C > 0] ms,
    [split_audio] returns exactly [ceil(D / C)] chunks in index order; chunk
    [i] spans [[i * C, min((i + 1) * C, D))], so no chunk is longer than [C],
    and the chunk durations add up to [D]. *)
Theorem split_audio_chunks (D C : Z) :
  (0 <= D)%Z -> (0 < C)%Z ->
  let num_chunks := ceil_div D C in
  exists chunks,
    split_audio (Some D) C = Some chunks /\
    ((num_chunks - 1) * C < D <= num_chunks * C)%Z /\
    Z.of_nat (length chunks) = num_chunks /\
    (forall i, i < length chunks ->
       exists c, chunks !! i = Some c /\
         index c = i /\
         start_ms c = (Z.of_nat i * C)%Z /\
         end_ms c = Z.min ((Z.of_nat i + 1) * C) D /\
         (0 < duration c <= C)%Z) /\
    total_duration chunks = D.
Proof.
  intros HD HC num_chunks. subst num_chunks. simpl.
  rewrite decide_False by lia. eexists. split; [reflexivity|].
  pose proof (ceil_div_nonneg D C HD HC) as Hn.
  split; [by apply ceil_div_spec|].
  split; [rewrite split_loaded_length; lia|].
  split; [|by apply split_loaded_total].
  intros i Hi. rewrite split_loaded_length in Hi.
  exists (make_chunk D C i).
  split; [apply split_loaded_lookup; lia|].
  repeat split; try reflexivity; apply make_chunk_duration; lia.
Qed.

(** A recording of 65 s cut at 30 s: three chunks of 30 s, 30 s and 5 s. *)
Lemma split_audio_chunks_witness :
  option_map (map (fun c => (start_ms c, end_ms c))) (split_audio (Some 65000%Z) 30000%Z)
  = Some [(0, 30000); (30000, 60000); (60000, 65000)]%Z
  /\ exists chunks, split_audio (Some 65000%Z) 30000%Z = Some chunks
                    /\ total_duration chunks = 65000%Z.
Proof.
  split; [reflexivity|].
  destruct (split_audio_chunks 65000 30000 ltac:(lia) ltac:(lia))
    as (chunks & Hs & _ & _ & _ & Ht).
  by exists chunks.
Defined.

(** C6. For a text [T] and a segment size [S > 0], the text chunker yields
    exactly [ceil(word_count(T) / S)] segments; joining them with single
    spaces gives the words of [T] separated by single spaces, which is [T]
    with its whitespace runs collapsed (and blank ends dropped), so the words
    survive the round trip; every segment holds between 1 and [S] words and
    every segment but the last exactly [S]. The result is a function of
    [T] and [S] alone. *)
Theorem text_chunker_segments (T : string) (S : Z) :
  (0 < S)%Z ->
  exists segments,
    split_text_into_chunks T S = Some segments /\
    Z.of_nat (length segments) = ceil_div (Z.of_nat (length (split T))) S /\
    join " " segments = join " " (split T) /\
    join " " segments = strip (collapse_runs T) /\
    split (join " " segments) = split T /\
    (forall i seg, segments !! i = Some seg ->
       (0 < Z.of_nat (length (split seg)) <= S)%Z /\
       (i + 1 < length segments -> Z.of_nat (length (split seg)) = S)).
Proof.
  intros HS. unfold split_text_into_chunks.
  rewrite decide_False by lia. rewrite decide_False by lia.
  eexists. split; [reflexivity|].
  set (n := Z.to_nat S). assert (0 < n) as Hn by lia.
  rewrite segments_eq.
  assert (join " " (map (segment (split T) n) (seq 0 (range_len (length (split T)) n)))
          = join " " (split T)) as Hjoin by (by apply segments_join).
  split; [|split; [|split; [|split]]].
  - rewrite length_map, length_seq, range_len_ceil by done.
    f_equal. lia.
  - done.
  - by rewrite Hjoin, join_split_collapse.
  - rewrite Hjoin. apply split_join, split_words.
  - intros i seg Hi.
    rewrite list_lookup_fmap in Hi.
    destruct (seq 0 (range_len (length (split T)) n) !! i) as [k|] eqn:Hk; [|done].
    apply lookup_seq in Hk as [-> Hk]. simpl in Hi. injection Hi as <-.
    pose proof (segment_word_count (split T) n Hn (split_words T) i Hk) as [Hb Hfull].
    rewrite length_map, length_seq.
    split; [lia|]. intros Hlast. rewrite Hfull by lia. lia.
Qed.

Lemma text_chunker_segments_witness :
  split_text_into_chunks "  one two   three four five " 2
  = Some ["one two"; "three four"; "five"]
  /\ exists segments,
       split_text_into_chunks "  one two   three four five " 2 = Some segments /\
       join " " segments = "one two three four five".
Proof.
  split; [reflexivity|].
  destruct (text_chunker_segments "  one two   three four five " 2 ltac:(lia))
    as (segments & Hs & _ & Hj & _).
  exists segments. split; [exact Hs|]. rewrite Hj. reflexivity.
Defined.

(** *** Concrete runs used below *)

(** A fresh processor, as [__init__] leaves it. *)
Definition idle : BatchProcessor := mkBP 0 0 "Idle" false false.

(** A recording of 150 s: five chunks of 30 s. The worker prints the text
    "spoken" with surrounding blanks, ollama answers with one bullet. *)
Definition lecture_env (stop_tr stop_sum : nat -> bool) : Env :=
  mkEnv "python" true (fun _ => Some 150000%Z) true None
        (fun _ => WorkerExit 0 " spoken ")
        (fun _ => OllamaExit "- point")
        stop_tr stop_sum.

Definition never : nat -> bool := fun _ => false.

(** C7. The merger and the notes compiler are idempotent: run a second
    time over the same unit files, each ends in the same world, with the
    same bytes in [lecture_clean.txt] and [notes/final_notes.txt], as the
    first time. *)
Theorem merge_and_compile_idempotent (w : World) :
  merge_transcripts (merge_transcripts w).2 = merge_transcripts w /\
  compile_final_notes (compile_final_notes w).2 = compile_final_notes w /\
  disk (merge_transcripts w).2 !! LECTURE_CLEAN_FILE = Some (merged_text (disk w)) /\
  disk (compile_final_notes w).2 !! FINAL_NOTES_FILE = Some (notes_text (disk w)).
Proof.
  rewrite !merge_transcripts_spec, !compile_final_notes_spec. simpl.
  rewrite merged_text_stable, notes_text_stable, !insert_insert_eq, !lookup_insert_eq.
  done.
Qed.

(** C8, as stated, fails: with 1001 units the lexicographic order of the
    three-digit names is not the index order; [batch_1000.txt] sorts before
    [batch_101.txt]. *)
Lemma unit_names_unsorted_at_1001 :
  String.ltb (batch_file 1000) (batch_file 101) = true /\
  sorted (map batch_file (seq 0 1001)) <> map batch_file (seq 0 1001).
Proof.
  split; [reflexivity|].
  intros H. apply (f_equal (fun l => l !! 101)) in H. vm_compute in H. discriminate.
Qed.

(** C8, amended. For at most 1000 units (indices 0 to 999) the names
    [batch_{i:03d}.txt] and [summary_{i:03d}.txt] increase with the index,
    so that sorting any listing of them, as the merger and the compiler do,
    yields the units in index order. *)
Theorem unit_names_sorted_upto_1000 (n : nat) :
  n <= 1000 ->
  (forall i j, i < j < n ->
     str_lt (batch_file i) (batch_file j) /\ str_lt (summary_file i) (summary_file j)) /\
  (forall files, files ≡ₚ map batch_file (seq 0 n) ->
     sorted files = map batch_file (seq 0 n)) /\
  (forall files, files ≡ₚ map summary_file (seq 0 n) ->
     sorted files = map summary_file (seq 0 n)).
Proof.
  intros Hn.
  pose proof (unit_files_sorted batch_file n batch_files_sorted_1000 Hn) as Hb.
  pose proof (unit_files_sorted summary_file n summary_files_sorted_1000 Hn) as Hs.
  split_and!.
  - intros i j Hij.
    assert (forall f, Sorted str_lt (map f (seq 0 n)) -> str_lt (f i) (f j)) as Hlt.
    { intros f Hf. apply (Sorted_StronglySorted _) in Hf.
      replace (seq 0 n) with (seq 0 (S i) ++ seq (S i) (n - S i))%list in Hf
        by (rewrite <- seq_app; f_equal; lia).
      rewrite seq_S, map_app, map_app in Hf. simpl in Hf.
      apply StronglySorted_app_1_elem_of with (x1 := f i) (x2 := f j) in Hf; [done| |].
      - apply elem_of_app. right. by left.
      - apply list_elem_of_fmap. exists j. split; [done|]. apply elem_of_seq. lia. }
    split; by apply Hlt.
  - intros files Hp. by apply sorted_unique.
  - intros files Hp. by apply sorted_unique.
Qed.

Lemma unit_names_sorted_upto_1000_witness :
  sorted [batch_file 2; batch_file 0; batch_file 1]
  = [batch_file 0; batch_file 1; batch_file 2].
Proof.
  destruct (unit_names_sorted_upto_1000 3 ltac:(lia)) as (_ & Hsort & _).
  apply (Hsort [batch_file 2; batch_file 0; batch_file 1]).
  change (map batch_file (seq 0 3)) with [batch_file 0; batch_file 1; batch_file 2].
  etrans; [apply Permutation_swap|]. apply perm_skip. apply Permutation_swap.
Defined.






(** C2. When the stop event is set by the time unit [k] is tested, the stage
    writes no unit file of index [k] or above, and it removes nothing: the
    units written so far stay on disk. The units below [k] that were reached
    before the event was set exist when the stage returns. [is_running] is
    false once [run_pipeline] has returned. The same holds for the
    summarization stage. *)
Theorem stop_before_unit (env : Env) (w : World) (k : nat) :
  let tr := (process_audio_batches env RECORDING_FILE w).2 in
  let su := (process_summary_batches env w).2 in
  ((_stop_event (self w) = true \/
    exists j, j <= k /\ stop_before_transcribing env j = true) ->
   forall i, k <= i -> disk tr !! batch_file i = disk w !! batch_file i) /\
  ((_stop_event (self w) = true \/
    exists j, j <= k /\ stop_before_summarizing env j = true) ->
   forall i, k <= i -> disk su !! summary_file i = disk w !! summary_file i) /\
  (forall p, is_Some (disk w !! p) -> is_Some (disk tr !! p) /\ is_Some (disk su !! p)) /\
  (forall i x, i < k -> transcribing_at env w i -> export_error env = None ->
     chunk_paths env RECORDING_FILE !! i = Some x -> is_Some (disk tr !! batch_file i)) /\
  (forall i x, i < k -> summarizing_at env w i ->
     (process_summary_batches env w).1 = Ret true ->
     text_segments (disk w) !! i = Some x -> is_Some (disk su !! summary_file i)) /\
  is_running (self (run_pipeline env w).2) = false.
Proof.
  simpl. split_and!.
  - intros Hstop i Hi.
    destruct (process_audio_batches_disk env RECORDING_FILE w (batch_file i)
                (batch_file_ne_clean i)) as [Hp|(j & x & _ & Hj & [Hf Hrun] & _)]; [done|].
    apply batch_file_inj in Hj as <-.
    destruct Hstop as [Hset|(j & Hj & Hs)]; [congruence|].
    rewrite Hrun in Hs by lia. done.
  - intros Hstop i Hi.
    destruct (process_summary_batches_disk env w (summary_file i)
                (summary_file_ne_notes i)) as [Hp|(j & x & t & _ & Hj & [Hf Hrun] & _)]; [done|].
    apply summary_file_inj in Hj as <-.
    destruct Hstop as [Hset|(j & Hj & Hs)]; [congruence|].
    rewrite Hrun in Hs by lia. done.
  - intros p Hp. split.
    + by apply process_audio_batches_keeps.
    + by apply process_summary_batches_keeps.
  - intros i x _ Hrun He Hx.
    destruct (exists_nonempty (disk w) (batch_file i)) eqn:Hex.
    + apply process_audio_batches_keeps. unfold exists_nonempty in Hex.
      by destruct (disk w !! batch_file i).
    + erewrite process_audio_batches_written by done. by eexists.
  - intros i x _ Hrun Hret Hx.
    destruct (exists_nonempty (disk w) (summary_file i)) eqn:Hex.
    + apply process_summary_batches_keeps. unfold exists_nonempty in Hex.
      by destruct (disk w !! summary_file i).
    + destruct (process_summary_batches_written env w i x Hret Hx Hrun Hex) as (t & _ & ->).
      by eexists.
  - pose proof (run_pipeline_cases env w) as Hc.
    destruct (pipeline_body env w) as [[[]|e] w1]; by rewrite Hc.
Qed.

(** Stop requested before unit 3 of 5, starting from an empty directory:
    exactly the units 0, 1 and 2 exist afterwards. *)
Lemma stop_before_unit_witness :
  let env := lecture_env (fun i => i =? 3) never in
  let w := mkWorld idle ∅ [] in
  let tr := (process_audio_batches env RECORDING_FILE w).2 in
  sorted (listdir TRANSCRIPT_DIR (disk tr))
  = ["batch_000.txt"; "batch_001.txt"; "batch_002.txt"] /\
  disk tr !! batch_file 3 = None /\ disk tr !! batch_file 4 = None /\
  is_Some (disk tr !! batch_file 2) /\
  is_running (self (run_pipeline env w).2) = false.
Proof.
  intros env w tr.
  destruct (stop_before_unit env w 3) as (Hno & _ & _ & Hbelow & _ & Hrun).
  assert (exists j, j <= 3 /\ stop_before_transcribing env j = true) as Hstop
    by (exists 3; split; [lia|reflexivity]).
  split; [by vm_compute|].
  split; [subst tr; rewrite (Hno (or_intror Hstop) 3) by lia; reflexivity|].
  split; [subst tr; rewrite (Hno (or_intror Hstop) 4) by lia; reflexivity|].
  split; [|exact Hrun].
  apply (Hbelow 2 "audio_chunks/chunk_002.wav"); [lia| |reflexivity|reflexivity].
  split; [reflexivity|]. intros j Hj.
  destruct j as [|[|[|j]]]; [reflexivity..|lia].
Defined.




(** The worker exits with a non-zero status for every chunk. *)
Definition broken_worker_env : Env :=
  mkEnv "python" true (fun _ => Some 150000%Z) true None
        (fun _ => WorkerExit 1 "") (fun _ => OllamaExit "- point") never never.

(** C4, as stated, fails for transcription: a failed transcription is
    written as the empty string, the file has size zero, and the next run of
    the stage calls the worker for that unit again and overwrites the file;
    nobody deleted it. *)
Lemma failed_transcript_is_retried :
  let w1 := (process_audio_batches broken_worker_env RECORDING_FILE (mkWorld idle ∅ [])).2 in
  let w2 := (process_audio_batches (lecture_env never never) RECORDING_FILE w1).2 in
  disk w1 !! batch_file 0 = Some "" /\
  disk w2 !! batch_file 0 = Some "spoken" /\
  mkSpawn ["python"; "transcribe_worker.py"; "audio_chunks/chunk_000.wav"] ""
    ∈ drop (length (spawned w1)) (spawned w2).
Proof.
  vm_compute. split; [reflexivity|]. split; [reflexivity|]. left.
Qed.

(** C4, amended. A failing collaborator call does not abort the stage, and
    what the failure yields is written as the unit's content: the empty
    string when the transcription worker exits non-zero or cannot be run,
    the sentinel when the ollama binary is absent. On a later run a unit
    file with content, the sentinel included, is left as it is and its
    collaborator is not called; a unit file that is missing or empty, a
    failed transcription included, is produced again. *)
Theorem unit_failure_policy (env : Env) (w : World) :
  let tr := (process_audio_batches env RECORDING_FILE w).2 in
  let su := (process_summary_batches env w).2 in
  let chunks := chunk_paths env RECORDING_FILE in
  let segments := text_segments (disk w) in
  (* the failure results *)
  (forall x, realtimestt_importable env = true ->
     (exists e, run_worker env x = WorkerRaise e) \/
     (exists rc out, run_worker env x = WorkerExit rc out /\ rc <> 0%Z) ->
     transcribe_text env x = "") /\
  (forall x, run_ollama env (summary_prompt x) = OllamaNotFound ->
     summarize_result env x = Ret "[Error: Ollama not found]") /\
  (* the transcription stage goes on and writes what each call returned *)
  (chunks <> [] -> export_error env = None ->
   (process_audio_batches env RECORDING_FILE w).1 = Ret true /\
   forall k x, chunks !! k = Some x -> transcribing_at env w k ->
     exists_nonempty (disk w) (batch_file k) = false ->
     disk tr !! batch_file k = Some (transcribe_text env x)) /\
  (* so does the summarization stage, unless a call raises *)
  (segments <> [] ->
   (forall k x e, segments !! k = Some x ->
      run_ollama env (summary_prompt x) <> OllamaRaise e) ->
   (process_summary_batches env w).1 = Ret true /\
   forall k x, segments !! k = Some x -> summarizing_at env w k ->
     exists_nonempty (disk w) (summary_file k) = false ->
     exists text, summarize_result env x = Ret text /\
                  disk su !! summary_file k = Some text) /\
  (* a result with content is kept by the next run *)
  (forall k text, text <> "" ->
     (disk w !! batch_file k = Some text -> disk tr !! batch_file k = Some text) /\
     (disk w !! summary_file k = Some text -> disk su !! summary_file k = Some text)) /\
  (* an empty transcript is produced again by the next run *)
  (forall k x, export_error env = None -> chunks !! k = Some x -> transcribing_at env w k ->
     disk w !! batch_file k = Some "" ->
     disk tr !! batch_file k = Some (transcribe_text env x)).
Proof.
  simpl. split_and!.
  - intros x Himp Hfail. unfold transcribe_text. rewrite Himp.
    destruct Hfail as [[e ->]|(rc & out & -> & Hrc)]; [done|].
    by destruct (Z.eqb_spec rc 0).
  - intros x Hx. unfold summarize_result. by rewrite Hx.
  - intros Hne He. split.
    + rewrite process_audio_batches_result, He. by destruct (chunk_paths env RECORDING_FILE).
    + intros k x Hk Hrun Hex. by apply process_audio_batches_written.
  - intros Hne Hok.
    assert ((process_summary_batches env w).1 = Ret true) as Hret.
    { apply process_summary_batches_result; [done|].
      intros k x e Hk. unfold summarize_result.
      destruct (run_ollama env (summary_prompt x)) as [out| |e'] eqn:Ho; try done.
      exfalso. exact (Hok k x e' Hk Ho). }
    split; [done|]. intros k x Hk Hrun Hex. by apply process_summary_batches_written.
  - intros k text Htext. split; intros Hk.
    + rewrite process_audio_batches_skips; [done|].
      unfold exists_nonempty. rewrite Hk. by apply bool_decide_eq_true_2.
    + rewrite process_summary_batches_skips; [done|].
      unfold exists_nonempty. rewrite Hk. by apply bool_decide_eq_true_2.
  - intros k x He Hk Hrun Hempty. apply process_audio_batches_written; try done.
    unfold exists_nonempty. rewrite Hempty. apply bool_decide_eq_false_2.
    intros H. by apply H.
Qed.

(** The failing worker writes five empty transcripts and the stage returns
    [True]; a sentinel left by an earlier summarization run survives a run
    with a working backend. *)
Lemma unit_failure_policy_witness :
  (process_audio_batches broken_worker_env RECORDING_FILE (mkWorld idle ∅ [])).1 = Ret true /\
  disk (process_audio_batches broken_worker_env RECORDING_FILE (mkWorld idle ∅ [])).2
    !! batch_file 4 = Some "" /\
  disk (process_summary_batches (lecture_env never never)
          (mkWorld idle {[ LECTURE_CLEAN_FILE := "good morning";
                           summary_file 0 := "[Error: Ollama not found]" ]} [])).2
    !! summary_file 0 = Some "[Error: Ollama not found]".
Proof.
  destruct (unit_failure_policy broken_worker_env (mkWorld idle ∅ []))
    as (Hempty & _ & Htr & _ & _ & _).
  destruct Htr as [Hret Hwr]; [by vm_compute|reflexivity|].
  split; [exact Hret|]. split.
  - rewrite (Hwr 4 "audio_chunks/chunk_004.wav" eq_refl (conj eq_refl (fun _ _ => eq_refl)) eq_refl).
    assert (transcribe_text broken_worker_env "audio_chunks/chunk_004.wav" = "") as ->
      by (apply Hempty; [reflexivity|right; exists 1%Z, ""; by split]).
    reflexivity.
  - destruct (unit_failure_policy (lecture_env never never)
                (mkWorld idle {[ LECTURE_CLEAN_FILE := "good morning";
                                 summary_file 0 := "[Error: Ollama not found]" ]} []))
      as (_ & _ & _ & _ & Hkeep & _).
    apply (Hkeep 0 "[Error: Ollama not found]"); [done|]. by vm_compute.
Defined.

(** C1, as stated, fails on a stopped run: with the stop event set, the
    units that are missing are not produced. *)
Lemma stopped_run_produces_no_unit :
  let w := (stop (mkWorld idle ∅ [])).2 in
  let tr := (process_audio_batches (lecture_env never never) RECORDING_FILE w).2 in
  length (chunk_paths (lecture_env never never) RECORDING_FILE) = 5 /\
  disk w !! batch_file 0 = None /\
  disk tr !! batch_file 0 = None.
Proof. vm_compute. repeat split; reflexivity. Qed.

(** Unit 2 of 5 exists with content "X" before the transcription stage runs. *)
Definition recovering : World := mkWorld idle {[ batch_file 2 := "X" ]} [].

(** C1, amended. A unit file that exists with content before the stage runs
    is left byte for byte as it is, and a collaborator is started only for
    units whose file was missing or empty. Every unit reached before the
    stop event was set whose file was missing or empty is produced, provided
    the stage is not ended by an exception (the export of the chunks, or an
    ollama call, raising). *)
Theorem skip_if_exists_recovery (env : Env) (path : string) (w : World) :
  let tr := (process_audio_batches env path w).2 in
  let su := (process_summary_batches env w).2 in
  let chunks := chunk_paths env path in
  let segments := text_segments (disk w) in
  (forall i, exists_nonempty (disk w) (batch_file i) = true ->
     disk tr !! batch_file i = disk w !! batch_file i) /\
  (forall i, exists_nonempty (disk w) (summary_file i) = true ->
     disk su !! summary_file i = disk w !! summary_file i) /\
  (exists extra, spawned tr = (spawned w ++ extra)%list /\
     (forall s, s ∈ extra ->
        exists k x, chunks !! k = Some x /\ s ∈ transcribe_spawns env x /\
                    exists_nonempty (disk w) (batch_file k) = false) /\
     (forall i x, chunks !! i = Some x ->
        exists_nonempty (disk w) (batch_file i) = true ->
        mkSpawn [sys_executable env; "transcribe_worker.py"; x] "" ∉ extra)) /\
  (exists extra, spawned su = (spawned w ++ extra)%list /\
     forall s, s ∈ extra ->
       exists k x, segments !! k = Some x /\ s ∈ summarize_spawns x /\
                   exists_nonempty (disk w) (summary_file k) = false) /\
  (export_error env = None ->
   forall k x, chunks !! k = Some x -> transcribing_at env w k ->
     exists_nonempty (disk w) (batch_file k) = false ->
     disk tr !! batch_file k = Some (transcribe_text env x)) /\
  ((process_summary_batches env w).1 = Ret true ->
   forall k x, segments !! k = Some x -> summarizing_at env w k ->
     exists_nonempty (disk w) (summary_file k) = false ->
     exists text, summarize_result env x = Ret text /\
                  disk su !! summary_file k = Some text).
Proof.
  simpl. split_and!.
  - apply process_audio_batches_skips.
  - apply process_summary_batches_skips.
  - destruct (process_audio_batches_spawned env path w) as (extra & He & Hin).
    exists extra. split; [done|]. split.
    + intros s Hs. destruct (Hin s Hs) as (k & x & ? & ? & _ & ?). by exists k, x.
    + intros i x Hi Hex Hs.
      destruct (Hin _ Hs) as (k & y & Hk & Hy & _ & Hno).
      unfold transcribe_spawns in Hy.
      destruct (realtimestt_importable env); [|by apply elem_of_nil in Hy].
      apply list_elem_of_singleton in Hy. injection Hy as <-.
      rewrite (chunk_paths_inj env path i k x Hi Hk) in Hex. congruence.
  - destruct (process_summary_batches_spawned env w) as (extra & He & Hin).
    exists extra. split; [done|]. intros s Hs.
    destruct (Hin s Hs) as (k & x & ? & ? & _ & ?). by exists k, x.
  - intros He k x. by apply process_audio_batches_written.
  - intros Hret k x. by apply process_summary_batches_written.
Qed.

(** Re-running the transcription stage over 5 chunks with unit 2 equal to
    "X": unit 2 is still "X", units 0, 1, 3 and 4 are written, and the
    worker ran for those four chunks only. *)
Lemma skip_if_exists_recovery_witness :
  disk (process_audio_batches (lecture_env never never) RECORDING_FILE recovering).2
    !! batch_file 2 = Some "X" /\
  disk (process_audio_batches (lecture_env never never) RECORDING_FILE recovering).2
    !! batch_file 4 = Some "spoken" /\
  map (fun i => disk (process_audio_batches (lecture_env never never)
                        RECORDING_FILE recovering).2 !! batch_file i) [0; 1; 2; 3; 4]
  = [Some "spoken"; Some "spoken"; Some "X"; Some "spoken"; Some "spoken"] /\
  map cmd (spawned (process_audio_batches (lecture_env never never)
                      RECORDING_FILE recovering).2)
  = map (fun c => ["python"; "transcribe_worker.py"; c])
        ["audio_chunks/chunk_000.wav"; "audio_chunks/chunk_001.wav";
         "audio_chunks/chunk_003.wav"; "audio_chunks/chunk_004.wav"].
Proof.
  destruct (skip_if_exists_recovery (lecture_env never never) RECORDING_FILE recovering)
    as (Hkeep & _ & _ & _ & Hwrite & _).
  split; [|split; [|split]].
  - rewrite (Hkeep 2 eq_refl). reflexivity.
  - rewrite (Hwrite eq_refl 4 "audio_chunks/chunk_004.wav" eq_refl
               (conj eq_refl (fun _ _ => eq_refl)) eq_refl).
    reflexivity.
  - by vm_compute.
  - by vm_compute.
Defined.

(** * Further properties of the code *)

(** ** Paths of unit files *)

Section UnitPaths.

Lemma has_slash_app a b : has_slash (a ++ b) = has_slash a || has_slash b.
Proof.
  induction a as [|c a IH]; [reflexivity|].
  rewrite str_app_cons. simpl. by destruct (decide (c = "/"%char)).
Qed.

Lemma strip_prefix_app pre s : strip_prefix pre (pre ++ s) = Some s.
Proof.
  induction pre as [|c pre IH]; [by destruct s|].
  rewrite str_app_cons. simpl. by rewrite decide_True.
Qed.

(** A plain file name joined to a directory is a child of that directory. *)
Lemma child_of_join d f : has_slash f = false -> child_of d (path_join d f) = Some f.
Proof.
  intros Hf. unfold child_of, path_join.
  rewrite <- str_app_assoc, strip_prefix_app. by rewrite Hf.
Qed.

Lemma uint_no_slash d : has_slash (NilEmpty.string_of_uint d) = false.
Proof. induction d; simpl; try done. Qed.

Lemma dec_no_slash n : has_slash (dec n) = false.
Proof.
  unfold dec, NilZero.string_of_uint.
  destruct (Nat.to_uint n) eqn:Hn; try apply uint_no_slash. reflexivity.
Qed.

Lemma zeros_no_slash k : has_slash (zeros k) = false.
Proof. induction k; simpl; done. Qed.

Lemma fmt_03d_no_slash n : has_slash (fmt_03d n) = false.
Proof. unfold fmt_03d. by rewrite has_slash_app, zeros_no_slash, dec_no_slash. Qed.

(** The file names of the units, inside their directories. *)
Definition batch_name (i : nat) : string := "batch_" ++ fmt_03d i ++ ".txt".
Definition summary_name (i : nat) : string := "summary_" ++ fmt_03d i ++ ".txt".

Lemma batch_name_plain i : has_slash (batch_name i) = false.
Proof. unfold batch_name. by rewrite !has_slash_app, fmt_03d_no_slash. Qed.

Lemma summary_name_plain i : has_slash (summary_name i) = false.
Proof. unfold summary_name. by rewrite !has_slash_app, fmt_03d_no_slash. Qed.

Lemma child_of_batch_file i : child_of TRANSCRIPT_DIR (batch_file i) = Some (batch_name i).
Proof. apply child_of_join, batch_name_plain. Qed.

Lemma child_of_summary_file i : child_of SUMMARY_DIR (summary_file i) = Some (summary_name i).
Proof. apply child_of_join, summary_name_plain. Qed.

Lemma prefix_app p s : String.prefix p (p ++ s) = true.
Proof.
  induction p as [|c p IH]; [by destruct s|].
  rewrite str_app_cons. simpl. by destruct (ascii_dec c c).
Qed.

Lemma batch_name_prefix i : startswith (batch_name i) "batch_" = true.
Proof. apply prefix_app. Qed.

Lemma summary_name_prefix i : startswith (summary_name i) "summary_" = true.
Proof. apply prefix_app. Qed.

End UnitPaths.

(** ** batch_processor.py: [cleanup_artifacts] *)

(** [os.remove(path)] inside [try ... except]: the removal of a [locked]
    path raises (a permission error, a file held open), which the source
    prints or ignores. Every listed entry is a file, so [os.path.isfile]
    holds. *)
Definition try_remove (locked : string -> bool) (path : string) : M unit :=
  fun w =>
    if locked path then (Ret tt, w)
    else (Ret tt, mkWorld (self w) (delete path (disk w)) (spawned w)).

(** [for f in os.listdir(d): ...] over the listing taken before the loop. *)
Fixpoint remove_listed (locked : string -> bool) (d : string) (names : list string) : M unit :=
  match names with
  | [] => ret tt
  | f :: rest => try_remove locked (path_join d f) ;;; remove_listed locked d rest
  end.

Definition dirs_to_clean : list string :=
  [TRANSCRIPT_DIR; SUMMARY_DIR; NOTES_DIR; "audio_chunks"].

(** [for d in dirs_to_clean: if os.path.exists(d): ...]; a directory that
    does not exist has no file in [disk] and an empty listing. *)
Fixpoint clean_dirs (locked : string -> bool) (dirs : list string) : M unit :=
  match dirs with
  | [] => ret tt
  | d :: rest =>
      (dk <- get_disk ;; remove_listed locked d (listdir d dk)) ;;;
      clean_dirs locked rest
  end.

Definition cleanup_artifacts (locked : string -> bool) : M unit :=
  set_status "Cleaning previous artifacts..." ;;;
  clean_dirs locked dirs_to_clean ;;;
  dk <- get_disk ;;
  match dk !! LECTURE_CLEAN_FILE with
  | Some _ => try_remove locked LECTURE_CLEAN_FILE
  | None => ret tt
  end.

(** The paths [cleanup_artifacts] aims at: the files directly inside one of
    the four directories, and the cleaned transcript. *)
Definition is_artifact (p : string) : bool :=
  bool_decide (p = LECTURE_CLEAN_FILE)
  || existsb (fun d => bool_decide (is_Some (child_of d p))) dirs_to_clean.

Example is_artifact_ex :
  map is_artifact ["transcripts/batch_000.txt"; "notes/final_notes.txt"; "lecture_clean.txt";
                   "recording.wav"; "transcripts/old/batch_000.txt"; "audio_chunks/chunk_001.wav"]
  = [true; true; true; false; false; true].
Proof. reflexivity. Qed.

Section Cleanup.

Variable locked : string -> bool.

Lemma listdir_elem d (dk : gmap string string) f :
  f ∈ listdir d dk <-> exists p, is_Some (dk !! p) /\ child_of d p = Some f.
Proof.
  unfold listdir. rewrite list_elem_of_omap. split.
  - intros (p & Hp & Hc). exists p. split; [|done].
    apply list_elem_of_fmap in Hp as ([p' v] & -> & Hpv).
    apply elem_of_map_to_list in Hpv. by eexists.
  - intros (p & [v Hv] & Hc). exists p. split; [|done].
    apply list_elem_of_fmap. exists (p, v). split; [done|]. by apply elem_of_map_to_list.
Qed.

(** Removing the listed names: a file goes exactly when it is listed and
    not locked. *)
Lemma remove_listed_spec d names : forall w,
  exists dk', remove_listed locked d names w = (Ret tt, mkWorld (self w) dk' (spawned w)) /\
    forall p, dk' !! p = if bool_decide (p ∈ map (path_join d) names) && negb (locked p)
                         then None else disk w !! p.
Proof.
  induction names as [|f rest IH]; intros w.
  - exists (disk w). split; [by destruct w|]. intros p. done.
  - simpl. unfold bind, try_remove.
    destruct (locked (path_join d f)) eqn:Hl.
    + destruct (IH w) as (dk' & -> & Hdk). exists dk'. split; [done|].
      intros p. rewrite Hdk.
      destruct (decide (p = path_join d f)) as [->|Hne].
      * rewrite Hl, !andb_false_r. done.
      * assert (bool_decide (p ∈ path_join d f :: map (path_join d) rest)
                = bool_decide (p ∈ map (path_join d) rest)) as ->; [|done].
        apply bool_decide_ext. rewrite elem_of_cons. split; [by intros [?|?]|by right].
    + destruct (IH (mkWorld (self w) (delete (path_join d f) (disk w)) (spawned w)))
        as (dk' & -> & Hdk).
      exists dk'. split; [done|]. intros p. rewrite Hdk. simpl.
      destruct (decide (p = path_join d f)) as [->|Hne].
      * rewrite Hl, lookup_delete_eq. simpl.
        rewrite (bool_decide_eq_true_2 (path_join d f ∈ path_join d f :: _)) by left.
        by destruct (bool_decide _).
      * rewrite lookup_delete_ne by done.
        assert (bool_decide (p ∈ path_join d f :: map (path_join d) rest)
                = bool_decide (p ∈ map (path_join d) rest)) as ->; [|done].
        apply bool_decide_ext. rewrite elem_of_cons. split; [by intros [?|?]|by right].
Qed.

(** Cleaning one directory. *)
Lemma clean_dir_spec d w :
  exists dk', (dk <- get_disk ;; remove_listed locked d (listdir d dk)) w
              = (Ret tt, mkWorld (self w) dk' (spawned w)) /\
    forall p, dk' !! p = if bool_decide (is_Some (child_of d p)) && negb (locked p)
                         then None else disk w !! p.
Proof.
  unfold bind, get_disk.
  destruct (remove_listed_spec d (listdir d (disk w)) w) as (dk' & -> & Hdk).
  exists dk'. split; [done|]. intros p. rewrite Hdk.
  destruct (locked p); [by rewrite !andb_false_r|]. rewrite !andb_true_r.
  destruct (child_of d p) as [f|] eqn:Hc.
  - rewrite (bool_decide_eq_true_2 (is_Some (Some f))) by (by eexists).
    destruct (disk w !! p) as [v|] eqn:Hp; [|by destruct (bool_decide _)].
    rewrite bool_decide_eq_true_2; [done|].
    apply list_elem_of_fmap. exists f. split; [by apply child_of_spec|].
    apply listdir_elem. exists p. split; [by eexists|done].
  - rewrite (bool_decide_eq_false_2 (is_Some None)) by (by intros [? ?]).
    rewrite bool_decide_eq_false_2; [done|].
    intros Hin. apply list_elem_of_fmap in Hin as (f & -> & Hf).
    apply listdir_elem in Hf as (q & _ & Hq).
    pose proof (child_of_spec _ _ _ Hq) as ->. congruence.
Qed.

Lemma clean_dirs_spec dirs : forall w,
  exists dk', clean_dirs locked dirs w = (Ret tt, mkWorld (self w) dk' (spawned w)) /\
    forall p, dk' !! p
              = if existsb (fun d => bool_decide (is_Some (child_of d p))) dirs && negb (locked p)
                then None else disk w !! p.
Proof.
  induction dirs as [|d rest IH]; intros w.
  - exists (disk w). split; [by destruct w|]. done.
  - simpl. unfold bind at 1.
    destruct (clean_dir_spec d w) as (dk1 & -> & Hdk1).
    destruct (IH (mkWorld (self w) dk1 (spawned w))) as (dk' & -> & Hdk).
    exists dk'. split; [done|]. intros p. rewrite Hdk. simpl. rewrite Hdk1.
    destruct (locked p); [by rewrite !andb_false_r|]. rewrite !andb_true_r.
    destruct (bool_decide (is_Some (child_of d p))); simpl; [|done].
    by destruct (existsb _ rest).
Qed.

End Cleanup.

Lemma cleanup_artifacts_run (locked : string -> bool) (w : World) :
  exists dk',
    cleanup_artifacts locked w
    = (Ret tt, mkWorld (mkBP (transcription_progress (self w)) (summarization_progress (self w))
                             "Cleaning previous artifacts..." (is_running (self w))
                             (_stop_event (self w)))
                       dk' (spawned w)) /\
    forall p, dk' !! p = if is_artifact p && negb (locked p) then None else disk w !! p.
Proof.
  unfold cleanup_artifacts. unfold bind at 1 2. unfold set_status, modify_self.
  set (w0 := mkWorld _ (disk w) (spawned w)).
  destruct (clean_dirs_spec locked dirs_to_clean w0) as (dk1 & -> & Hdk1).
  unfold bind, get_disk. cbn [disk self spawned].
  assert (dk1 !! LECTURE_CLEAN_FILE = disk w !! LECTURE_CLEAN_FILE) as Hclean.
  { rewrite Hdk1. reflexivity. }
  assert (forall p, p <> LECTURE_CLEAN_FILE ->
            dk1 !! p = if is_artifact p && negb (locked p) then None else disk w !! p) as Hother.
  { intros p Hp. rewrite Hdk1. unfold is_artifact.
    by rewrite (bool_decide_eq_false_2 (p = LECTURE_CLEAN_FILE)) by done. }
  destruct (dk1 !! LECTURE_CLEAN_FILE) as [text|] eqn:Hl.
  - unfold try_remove. destruct (locked LECTURE_CLEAN_FILE) eqn:Hlock; cbn.
    + eexists. split; [reflexivity|]. intros p.
      destruct (decide (p = LECTURE_CLEAN_FILE)) as [->|Hp]; [|by apply Hother].
      rewrite Hlock, andb_false_r. cbn. congruence.
    + eexists. split; [reflexivity|]. intros p.
      destruct (decide (p = LECTURE_CLEAN_FILE)) as [->|Hp].
      * by rewrite lookup_delete_eq, Hlock.
      * rewrite lookup_delete_ne by done. by apply Hother.
  - cbn. eexists. split; [reflexivity|]. intros p.
    destruct (decide (p = LECTURE_CLEAN_FILE)) as [->|Hp]; [|by apply Hother].
    rewrite Hl, <- Hclean. by destruct (_ && _).
Qed.

(** X1. [cleanup_artifacts] never raises and starts no process. It removes
    exactly the artifacts (the files directly inside [transcripts],
    [summaries], [notes] and [audio_chunks], and [lecture_clean.txt]) whose
    removal does not fail; a file that cannot be removed stays and does not
    keep the others from being removed. Every other file, and the flags and
    progress fields of the processor, are left as they were. *)
Theorem cleanup_artifacts_spec (locked : string -> bool) (w : World) :
  let w' := (cleanup_artifacts locked w).2 in
  (cleanup_artifacts locked w).1 = Ret tt /\
  spawned w' = spawned w /\
  self w' = mkBP (transcription_progress (self w)) (summarization_progress (self w))
                 "Cleaning previous artifacts..." (is_running (self w))
                 (_stop_event (self w)) /\
  forall p, disk w' !! p = if is_artifact p && negb (locked p) then None else disk w !! p.
Proof.
  destruct (cleanup_artifacts_run locked w) as (dk' & -> & Hdk). by simpl.
Qed.

(** X2. After a cleanup in which no removal fails, the four directories list
    as empty and the cleaned transcript is gone, so the next transcription
    stage skips nothing: every unit it reaches is transcribed afresh. *)
Theorem cleanup_then_transcribe (env : Env) (path : string) (w : World) :
  let w' := (cleanup_artifacts (fun _ => false) w).2 in
  Forall (fun d => listdir d (disk w') = []) dirs_to_clean /\
  disk w' !! LECTURE_CLEAN_FILE = None /\
  (export_error env = None ->
   forall k x, chunk_paths env path !! k = Some x -> transcribing_at env w k ->
     disk (process_audio_batches env path w').2 !! batch_file k
     = Some (transcribe_text env x)).
Proof.
  simpl. destruct (cleanup_artifacts_spec (fun _ => false) w) as (_ & _ & Hself & Hdisk).
  split_and!.
  - apply Forall_forall. intros d Hd.
    destruct (listdir d (disk (cleanup_artifacts (fun _ => false) w).2)) as [|f fs] eqn:Hls;
      [done|].
    assert (f ∈ listdir d (disk (cleanup_artifacts (fun _ => false) w).2)) as Hf
      by (rewrite Hls; left).
    apply listdir_elem in Hf as (p & [v Hp] & Hc).
    rewrite Hdisk in Hp. rewrite andb_true_r in Hp.
    assert (is_artifact p = true) as Hart; [|by rewrite Hart in Hp].
    unfold is_artifact. apply orb_true_iff. right. apply existsb_exists.
    exists d. split; [by apply list_elem_of_In|]. apply bool_decide_eq_true_2. by eexists.
  - by rewrite Hdisk.
  - intros He k x Hk [Hf Hrun]. apply process_audio_batches_written; try done.
    + split; [|done]. by rewrite Hself.
    + unfold exists_nonempty. rewrite Hdisk.
      assert (is_artifact (batch_file k) = true) as ->; [|done].
      unfold is_artifact, dirs_to_clean. cbn [existsb].
      rewrite child_of_batch_file.
      rewrite (bool_decide_eq_true_2 (is_Some (Some _))) by (by eexists).
      by rewrite orb_true_r.
Qed.

(** Two stale transcripts and stale notes are wiped; the recording and a
    nested file stay; the next run transcribes unit 0 again. *)
Lemma cleanup_then_transcribe_witness :
  map (fun p => disk (cleanup_artifacts (fun _ => false)
                        (mkWorld idle {[ batch_file 0 := "old"; batch_file 1 := "older";
                                         FINAL_NOTES_FILE := "stale"; "recording.wav" := "RIFF";
                                         "transcripts/keep/a.txt" := "nested" ]} [])).2 !! p)
      [batch_file 0; batch_file 1; FINAL_NOTES_FILE; "recording.wav"; "transcripts/keep/a.txt"]
  = [None; None; None; Some "RIFF"; Some "nested"] /\
  disk (process_audio_batches (lecture_env never never) RECORDING_FILE
          (cleanup_artifacts (fun _ => false)
             (mkWorld idle {[ batch_file 0 := "old" ]} [])).2).2 !! batch_file 0
  = Some "spoken".
Proof.
  split; [by vm_compute|].
  destruct (cleanup_then_transcribe (lecture_env never never) RECORDING_FILE
              (mkWorld idle {[ batch_file 0 := "old" ]} [])) as (_ & _ & Hrun).
  rewrite (Hrun eq_refl 0 "audio_chunks/chunk_000.wav" eq_refl
             (conj eq_refl (fun _ _ => eq_refl))).
  reflexivity.
Defined.

(** ** What the merger and the compiler write *)

(** [c1 + sep + c2 + sep + ...]: the text accumulated over unit contents. *)
Definition joined (sep : string) (contents : list string) : string :=
  foldr (fun c acc => c ++ sep ++ acc) "" contents.

Section MergedContent.

Lemma cat_files_joined sep (dk : gmap string string) files : forall acc,
  cat_files sep dk files acc
  = acc ++ joined sep (map (fun f => default "" (dk !! f)) files).
Proof.
  induction files as [|f files IH]; intros acc; simpl.
  - by rewrite str_app_nil_r.
  - rewrite IH. by rewrite !str_app_assoc.
Qed.

Lemma NoDup_omap_inj {A B} (f : A -> option B) (l : list A) :
  (forall x y z, f x = Some z -> f y = Some z -> x = y) ->
  NoDup l -> NoDup (omap f l).
Proof.
  intros Hinj. induction 1 as [|x l Hx Hl IH]; simpl; [constructor|].
  destruct (f x) as [z|] eqn:Hfx; [|done].
  constructor; [|done].
  intros Hin. apply list_elem_of_omap in Hin as (y & Hy & Hfy).
  by rewrite (Hinj x y z Hfx Hfy) in Hx.
Qed.

Lemma listdir_NoDup d (dk : gmap string string) : NoDup (listdir d dk).
Proof.
  unfold listdir. apply NoDup_omap_inj.
  - intros x y z Hx%child_of_spec Hy%child_of_spec. congruence.
  - apply NoDup_fst_map_to_list.
Qed.

#[local] Instance path_join_inj d : Inj (=) (=) (path_join d).
Proof. intros f g H. unfold path_join in H. by do 2 apply String.app_inj in H. Qed.

(** A directory that holds, under the prefix, exactly the units [0..n-1]. *)
Variables (d pre : string) (unit : nat -> string) (n : nat).
Variable dk : gmap string string.
Hypothesis unit_plain : forall i, has_slash (unit i) = false.
Hypothesis unit_pre : forall i, startswith (unit i) pre = true.
Hypothesis unit_inj : forall i j, unit i = unit j -> i = j.
Hypothesis unit_sorted : Sorted str_lt (map (fun i => path_join d (unit i)) (seq 0 n)).
Hypothesis units_present : forall i, i < n -> is_Some (dk !! path_join d (unit i)).
Hypothesis units_only : forall p f,
  is_Some (dk !! p) -> child_of d p = Some f -> startswith f pre = true ->
  exists i, i < n /\ f = unit i.

(** The listing comes out in index order. *)
Lemma sorted_files_units :
  sorted_files d pre dk = map (fun i => path_join d (unit i)) (seq 0 n).
Proof.
  unfold sorted_files. apply sorted_unique; [|done].
  apply NoDup_Permutation.
  - apply (NoDup_fmap_2 _). apply NoDup_filter, listdir_NoDup.
  - assert (Inj (=) (=) (fun i => path_join d (unit i))) as Hinj.
    { intros i j H. apply unit_inj. by apply (inj (path_join d)). }
    apply (NoDup_fmap_2 _), NoDup_seq.
  - intros x. rewrite !list_elem_of_fmap. split.
    + intros (f & -> & Hf). apply list_elem_of_filter in Hf as [Hpre Hf].
      apply listdir_elem in Hf as (p & Hp & Hc).
      destruct (units_only p f Hp Hc Hpre) as (i & Hi & ->).
      exists i. split; [done|]. apply elem_of_seq. lia.
    + intros (i & -> & Hi). apply elem_of_seq in Hi. exists (unit i). split; [done|].
      apply list_elem_of_filter. split; [apply unit_pre|].
      apply listdir_elem. exists (path_join d (unit i)).
      split; [apply units_present; lia|]. by apply child_of_join.
Qed.

(** The text built from the directory is the unit contents in index order,
    each followed by the separator. *)
Lemma dir_text_units sep init (contents : list string) :
  length contents = n ->
  (forall i c, contents !! i = Some c -> dk !! path_join d (unit i) = Some c) ->
  dir_text d pre sep init dk = init ++ joined sep contents.
Proof.
  intros Hlen Hc. unfold dir_text. rewrite sorted_files_units, cat_files_joined.
  do 2 f_equal. rewrite map_map.
  apply list_eq. intros i. rewrite list_lookup_fmap.
  destruct (contents !! i) as [c|] eqn:Hi.
  - rewrite lookup_seq_lt by (apply lookup_lt_Some in Hi; lia). simpl.
    by rewrite (Hc i c Hi).
  - rewrite lookup_seq_ge; [done|]. apply lookup_ge_None in Hi. lia.
Qed.

End MergedContent.

Lemma batch_name_inj i j : batch_name i = batch_name j -> i = j.
Proof. intros H. apply batch_file_inj. unfold batch_file. by f_equal. Qed.

Lemma summary_name_inj i j : summary_name i = summary_name j -> i = j.
Proof. intros H. apply summary_file_inj. unfold summary_file. by f_equal. Qed.

(** The transcript directory holds, among its [batch_] files, exactly the
    units 0 to n-1 with the given contents; likewise for the summaries. *)
Definition transcripts_are (dk : gmap string string) (contents : list string) : Prop :=
  (forall i c, contents !! i = Some c -> dk !! batch_file i = Some c) /\
  (forall p f, is_Some (dk !! p) -> child_of TRANSCRIPT_DIR p = Some f ->
     startswith f "batch_" = true -> exists i, i < length contents /\ p = batch_file i).

Definition summaries_are (dk : gmap string string) (contents : list string) : Prop :=
  (forall i c, contents !! i = Some c -> dk !! summary_file i = Some c) /\
  (forall p f, is_Some (dk !! p) -> child_of SUMMARY_DIR p = Some f ->
     startswith f "summary_" = true -> exists i, i < length contents /\ p = summary_file i).

Lemma merged_text_units dk contents :
  length contents <= 1000 -> transcripts_are dk contents ->
  merged_text dk = strip (joined " " contents).
Proof.
  intros Hn [Hc Honly]. unfold merged_text. f_equal.
  change (joined " " contents) with ("" ++ joined " " contents).
  apply (dir_text_units TRANSCRIPT_DIR "batch_" batch_name (length contents) dk);
    try done.
  - apply batch_name_plain.
  - apply batch_name_prefix.
  - apply batch_name_inj.
  - exact (unit_files_sorted batch_file _ batch_files_sorted_1000 Hn).
  - intros i Hi. destruct (lookup_lt_is_Some_2 contents i Hi) as [c Hic].
    exists c. by apply Hc.
  - intros p f Hp Hchild Hpre. destruct (Honly p f Hp Hchild Hpre) as (i & Hi & ->).
    exists i. split; [done|]. rewrite child_of_batch_file in Hchild. congruence.
Qed.

Lemma notes_text_units dk contents :
  length contents <= 1000 -> summaries_are dk contents ->
  notes_text dk = notes_header ++ joined (nl ++ nl) contents.
Proof.
  intros Hn [Hc Honly]. unfold notes_text.
  apply (dir_text_units SUMMARY_DIR "summary_" summary_name (length contents) dk);
    try done.
  - apply summary_name_plain.
  - apply summary_name_prefix.
  - apply summary_name_inj.
  - exact (unit_files_sorted summary_file _ summary_files_sorted_1000 Hn).
  - intros i Hi. destruct (lookup_lt_is_Some_2 contents i Hi) as [c Hic].
    exists c. by apply Hc.
  - intros p f Hp Hchild Hpre. destruct (Honly p f Hp Hchild Hpre) as (i & Hi & ->).
    exists i. split; [done|]. rewrite child_of_summary_file in Hchild. congruence.
Qed.



(** X4. When the summary directory holds, among its [summary_] files,
    exactly the units 0 to n-1 (n at most 1000), [compile_final_notes]
    writes the header followed by their contents in index order, each
    followed by a blank line. *)
Theorem compile_final_notes_in_order (w : World) (contents : list string) :
  length contents <= 1000 ->
  summaries_are (disk w) contents ->
  disk (compile_final_notes w).2 !! FINAL_NOTES_FILE
  = Some (notes_header ++ joined (nl ++ nl) contents).
Proof.
  intros Hn Hc. rewrite compile_final_notes_spec. simpl.
  rewrite lookup_insert_eq. f_equal. by apply notes_text_units.
Qed.

Lemma compile_final_notes_in_order_witness :
  disk (compile_final_notes
          (mkWorld idle {[ summary_file 1 := "- two"; summary_file 0 := "- one" ]} [])).2
    !! FINAL_NOTES_FILE
  = Some ("# Final Lecture Notes" ++ nl ++ nl ++ "- one" ++ nl ++ nl ++ "- two" ++ nl ++ nl).
Proof.
  rewrite (compile_final_notes_in_order _ ["- one"; "- two"]).
  - reflexivity.
  - simpl. lia.
  - split.
    { intros [|[|i]] c Hc; simpl in Hc; try done; injection Hc as <-; by vm_compute. }
    intros p f Hp Hchild Hpre. simpl in Hp.
    rewrite !lookup_insert, lookup_singleton in Hp.
    repeat case_decide; subst; try (by destruct Hp).
    + exists 1. split; [simpl; lia|done].
    + exists 0. split; [simpl; lia|done].
Defined.



(** ** The stages on empty input *)

(** A text without a word: every character is white space. *)
Definition blank (t : string) : bool := forallb is_space (list_ascii_of_string t).

Lemma snoc_ne cur c : snoc cur c <> "".
Proof. unfold snoc. by destruct cur. Qed.

Lemma split_go_nil cur s : split_go cur s = [] <-> cur = "" /\ blank s = true.
Proof.
  revert cur. induction s as [|c s IH]; intros cur; simpl.
  - case_decide; split; [done|done|done|by intros [? _]].
  - unfold blank. simpl. fold (blank s). destruct (is_space c); simpl.
    + case_decide as Hc.
      * rewrite IH. split; [by intros [_ ?]|by intros [_ ?]].
      * split; [done|by intros [? _]].
    + rewrite IH. pose proof (snoc_ne cur c). split; [by intros [? _]|by intros [_ ?]].
Qed.

Lemma split_nil s : split s = [] <-> blank s = true.
Proof. unfold split. rewrite split_go_nil. split; [by intros [_ ?]|done]. Qed.

(** The cleaned transcript is missing or has no word. *)
Definition no_text (dk : gmap string string) : Prop :=
  match dk !! LECTURE_CLEAN_FILE with
  | None => True
  | Some text => blank text = true
  end.

Lemma text_segments_nil dk : text_segments dk = [] <-> no_text dk.
Proof.
  unfold text_segments, no_text.
  destruct (dk !! LECTURE_CLEAN_FILE) as [text|]; [|done].
  rewrite <- split_nil. unfold split_text_into_chunks. simpl.
  unfold py_range, range_len. rewrite map_map.
  destruct (split text) as [|x xs]; simpl; [done|].
  split; done.
Qed.

(** Without a word to summarize the stage ends at once. *)
Lemma process_summary_batches_no_text env w :
  no_text (disk w) ->
  process_summary_batches env w
  = (Ret false,
     mkWorld (mkBP (transcription_progress (self w)) 0
                   (match disk w !! LECTURE_CLEAN_FILE with
                    | Some _ => "Text is empty."
                    | None => "No transcript found."
                    end)
                   (is_running (self w)) (_stop_event (self w)))
             (disk w) (spawned w)).
Proof.
  intros Hno. pose proof Hno as Hnil. apply text_segments_nil in Hnil.
  unfold text_segments in Hnil. unfold no_text in Hno.
  unfold process_summary_batches, bind, set_status, set_summarization_progress,
    modify_self, get_disk, read_file.
  world_simpl. destruct (disk w !! LECTURE_CLEAN_FILE) as [text|] eqn:Ht.
  - world_simpl. rewrite Ht.
    destruct (split_text_into_chunks_default text) as (segs & Hsegs).
    rewrite Hsegs in *. simpl in Hnil. subst segs. by simpl.
  - by simpl.
Qed.

(** X6. The summarization stage returns [False] exactly when
    [lecture_clean.txt] is missing or holds no word. In that case it writes
    no file, starts no process, leaves the progress at 0 and reports
    [No transcript found.] for a missing file and [Text is empty.] for a text
    of white space only. *)
Theorem summary_stage_without_text (env : Env) (w : World) :
  ((process_summary_batches env w).1 = Ret false <-> no_text (disk w)) /\
  (no_text (disk w) ->
   let w' := (process_summary_batches env w).2 in
   disk w' = disk w /\ spawned w' = spawned w /\
   self w' = mkBP (transcription_progress (self w)) 0
                  (match disk w !! LECTURE_CLEAN_FILE with
                   | Some _ => "Text is empty."
                   | None => "No transcript found."
                   end)
                  (is_running (self w)) (_stop_event (self w))).
Proof.
  split.
  - rewrite <- text_segments_nil. split.
    + intros Hr. destruct (decide (text_segments (disk w) = [])) as [|Hne]; [done|].
      destruct (process_summary_batches_run env w Hne) as (r & wl & _ & Hcase).
      destruct r as [[]|e].
      * destruct Hcase as (p' & Heq & _). by rewrite Heq in Hr.
      * by rewrite Hcase in Hr.
    + intros Hnil. by destruct (process_summary_batches_idle env w Hnil) as (p' & -> & _).
  - intros Hno. by rewrite process_summary_batches_no_text.
Qed.

Lemma summary_stage_without_text_witness :
  let w := mkWorld idle {[ LECTURE_CLEAN_FILE := "  " ++ nl ]} [] in
  (process_summary_batches (lecture_env never never) w).2
  = mkWorld (mkBP 0 0 "Text is empty." false false) (disk w) [].
Proof.
  intros w.
  destruct (summary_stage_without_text (lecture_env never never) w) as [_ H].
  destruct H as (Hd & Hs & Hp); [by vm_compute|].
  destruct (process_summary_batches (lecture_env never never) w).2 as [p d s].
  simpl in *. by subst.
Defined.





(** ** Units are written in order *)

(** X8. The transcription stage leaves no gap: when a call changes the file
    of unit [k], every unit up to [k] has its file after the call, holding
    the content it had before when that was not empty and the transcription
    of its chunk otherwise. *)
Theorem transcripts_without_gap (env : Env) (path : string) (w : World) (k j : nat) :
  let w' := (process_audio_batches env path w).2 in
  disk w' !! batch_file k <> disk w !! batch_file k ->
  j <= k ->
  exists x, chunk_paths env path !! j = Some x /\
    disk w' !! batch_file j
    = Some (match disk w !! batch_file j with
            | Some c => if decide (c = "") then transcribe_text env x else c
            | None => transcribe_text env x
            end).
Proof.
  intros w' Hk Hj. subst w'.
  destruct (process_audio_batches_disk env path w (batch_file k) (batch_file_ne_clean k))
    as [Heq|(k' & xk & Hxk & Hkk & Hrun & _)]; [done|].
  apply batch_file_inj in Hkk. subst k'.
  assert (export_error env = None) as He.
  { destruct (export_error env) as [e|] eqn:He; [|done]. exfalso. apply Hk.
    assert (chunk_paths env path <> []) as Hne by (intros H; by rewrite H in Hxk).
    by destruct (process_audio_batches_export_error env path w e Hne He) as (p' & -> & _). }
  destruct (lookup_lt_is_Some_2 (chunk_paths env path) j) as [x Hx].
  { apply lookup_lt_Some in Hxk. lia. }
  assert (transcribing_at env w j) as Hrj.
  { destruct Hrun as [H0 Hall]. split; [done|]. intros i Hi. apply Hall. lia. }
  exists x. split; [done|].
  destruct (exists_nonempty (disk w) (batch_file j)) eqn:Hex.
  - rewrite (process_audio_batches_skips env path w j Hex).
    unfold exists_nonempty in Hex.
    destruct (disk w !! batch_file j) as [c|]; [|done].
    apply bool_decide_eq_true in Hex. by rewrite decide_False.
  - rewrite (process_audio_batches_written env path w j x He Hx Hrj Hex).
    unfold exists_nonempty in Hex.
    destruct (disk w !! batch_file j) as [c|]; [|done].
    apply bool_decide_eq_false in Hex. rewrite decide_True; [done|].
    by destruct (decide (c = "")).
Qed.

Lemma transcripts_without_gap_witness :
  let w := mkWorld idle {[ batch_file 1 := "kept"; batch_file 0 := "" ]} [] in
  let w' := (process_audio_batches (lecture_env never never) RECORDING_FILE w).2 in
  disk w' !! batch_file 0 = Some "spoken" /\
  disk w' !! batch_file 1 = Some "kept" /\
  disk w' !! batch_file 2 = Some "spoken".
Proof.
  intros w w'.
  assert (disk w' !! batch_file 4 <> disk w !! batch_file 4) as H4 by (by vm_compute).
  subst w'. split_and!.
  - destruct (transcripts_without_gap (lecture_env never never) RECORDING_FILE w 4 0 H4)
      as (x & Hx & ->); [lia|]. by vm_compute.
  - destruct (transcripts_without_gap (lecture_env never never) RECORDING_FILE w 4 1 H4)
      as (x & Hx & ->); [lia|]. by vm_compute.
  - destruct (transcripts_without_gap (lecture_env never never) RECORDING_FILE w 4 2 H4)
      as (x & Hx & ->); [lia|]. by vm_compute.
Defined.

(** ** A complete run *)

(** Nobody asks for a stop: the event stays unset through a loop. *)
Section QuietLoop.

Variables (X : Type) (stop_before : nat -> bool) (body : nat -> X -> M unit).
Hypothesis body_flags : forall i x w,
  _stop_event (self (body i x w).2) = _stop_event (self w).
Hypothesis quiet : forall j, stop_before j = false.

Lemma stage_loop_quiet xs : forall i w,
  _stop_event (self w) = false ->
  _stop_event (self (stage_loop X stop_before body i xs w).2) = false.
Proof.
  induction xs as [|x xs IH]; intros i w Hw; [done|].
  rewrite stage_loop_go by done.
  pose proof (body_flags i x w) as Hb.
  destruct (body i x w) as [[[]|e] w2]; simpl in Hb.
  - apply IH. congruence.
  - simpl. congruence.
Qed.

End QuietLoop.

Lemma transcribe_unit_flags env total i x w :
  _stop_event (self (transcribe_unit env total i x w).2) = _stop_event (self w).
Proof.
  destruct (exists_nonempty (disk w) (batch_file i)) eqn:Hex.
  - by destruct (transcribe_unit_skip env total i x w Hex) as (p' & -> & [Hf _]).
  - by destruct (transcribe_unit_write env total i x w _ Hex eq_refl) as (p' & -> & [Hf _]).
Qed.

Lemma summarize_unit_flags env total i x w :
  _stop_event (self (summarize_unit env total i x w).2) = _stop_event (self w).
Proof.
  destruct (exists_nonempty (disk w) (summary_file i)) eqn:Hex.
  - by destruct (summarize_unit_skip env total i x w Hex) as (p' & -> & [Hf _]).
  - destruct (summarize_result env x) as [text|e] eqn:Hr.
    + by destruct (summarize_unit_write env total i x w text Hex Hr) as (p' & -> & [Hf _]).
    + by destruct (summarize_unit_raise env total i x w e Hex Hr) as (p' & -> & [Hf _]).
Qed.

(** [os.listdir(d)] is empty: no file sits directly in [d]. *)
Lemma listdir_nil d (dk : gmap string string) p f :
  listdir d dk = [] -> child_of d p = Some f -> dk !! p = None.
Proof.
  intros Hnil Hc. destruct (dk !! p) as [v|] eqn:Hp; [|done].
  assert (f ∈ listdir d dk) as Hin.
  { apply listdir_elem. exists p. split; [by eexists|done]. }
  rewrite Hnil in Hin. by apply elem_of_nil in Hin.
Qed.

Lemma child_of_transcripts_ne p f :
  child_of TRANSCRIPT_DIR p = Some f ->
  p <> LECTURE_CLEAN_FILE /\ p <> FINAL_NOTES_FILE /\ forall k, p <> summary_file k.
Proof.
  intros ->%child_of_spec.
  unfold LECTURE_CLEAN_FILE, FINAL_NOTES_FILE, summary_file, path_join,
    TRANSCRIPT_DIR, NOTES_DIR, SUMMARY_DIR.
  rewrite !str_app_cons. split_and!; [discriminate|discriminate|]. intros k. discriminate.
Qed.

Lemma child_of_summaries_ne p f :
  child_of SUMMARY_DIR p = Some f ->
  p <> LECTURE_CLEAN_FILE /\ p <> FINAL_NOTES_FILE /\ forall k, p <> batch_file k.
Proof.
  intros ->%child_of_spec.
  unfold LECTURE_CLEAN_FILE, FINAL_NOTES_FILE, batch_file, path_join,
    TRANSCRIPT_DIR, NOTES_DIR, SUMMARY_DIR.
  rewrite !str_app_cons. split_and!; [discriminate|discriminate|]. intros k. discriminate.
Qed.

(** The summary ollama gives for a segment, when it does not raise. *)
Definition summary_of (env : Env) (segment : string) : string :=
  match summarize_result env segment with
  | Ret text => text
  | Exc _ => ""
  end.

Section CompleteRun.

Variable env : Env.
Hypothesis quiet_tr : forall j, stop_before_transcribing env j = false.
Hypothesis quiet_su : forall j, stop_before_summarizing env j = false.
Hypothesis export_ok : export_error env = None.

Lemma transcribing_quiet w k : _stop_event (self w) = false -> transcribing_at env w k.
Proof. intros Hw. by split. Qed.

Lemma summarizing_quiet w k : _stop_event (self w) = false -> summarizing_at env w k.
Proof. intros Hw. by split. Qed.

(** The transcription stage started with an empty transcript directory. *)
Lemma transcription_from_fresh path w :
  listdir TRANSCRIPT_DIR (disk w) = [] ->
  _stop_event (self w) = false ->
  chunk_paths env path <> [] ->
  let w1 := (process_audio_batches env path w).2 in
  (process_audio_batches env path w).1 = Ret true /\
  transcripts_are (disk w1) (map (transcribe_text env) (chunk_paths env path)) /\
  disk w1 !! LECTURE_CLEAN_FILE = Some (merged_text (disk w1)) /\
  (forall p, p <> LECTURE_CLEAN_FILE -> (forall k, p <> batch_file k) ->
     disk w1 !! p = disk w !! p).
Proof.
  intros Hfresh Hw Hne. simpl.
  assert (forall k, exists_nonempty (disk w) (batch_file k) = false) as Hex.
  { intros k. unfold exists_nonempty.
    by rewrite (listdir_nil _ _ _ _ Hfresh (child_of_batch_file k)). }
  split_and!.
  - rewrite process_audio_batches_result, export_ok.
    by destruct (chunk_paths env path).
  - split.
    + intros i c Hc. rewrite list_lookup_fmap in Hc.
      destruct (chunk_paths env path !! i) as [x|] eqn:Hx; [|done].
      injection Hc as <-.
      apply process_audio_batches_written; auto using transcribing_quiet.
    + intros p f Hp Hchild Hpre.
      destruct (child_of_transcripts_ne p f Hchild) as (Hclean & _).
      destruct (process_audio_batches_disk env path w p Hclean)
        as [Heq|(k & x & Hx & -> & _)].
      * rewrite Heq, (listdir_nil _ _ _ _ Hfresh Hchild) in Hp. by destruct Hp.
      * exists k. split; [|done]. rewrite length_map. by apply lookup_lt_Some in Hx.
  - destruct (process_audio_batches_run env path w Hne export_ok)
      as (wl & p' & _ & _ & -> & _).
    simpl. by rewrite lookup_insert_eq, merged_text_stable.
  - intros p Hclean Hunit.
    destruct (process_audio_batches_disk env path w p Hclean)
      as [Heq|(k & x & _ & -> & _)]; [done|]. by destruct (Hunit k).
Qed.

(** The event is still unset after a transcription stage nobody stopped. *)
Lemma process_audio_batches_quiet_run path w :
  _stop_event (self w) = false ->
  chunk_paths env path <> [] ->
  exists wl p',
    _stop_event (self wl) = false /\
    process_audio_batches env path w
    = (Ret true, mkWorld p' (<[LECTURE_CLEAN_FILE := merged_text (disk wl)]> (disk wl))
                         (spawned wl)) /\
    same_flags (self wl) p'.
Proof.
  unfold chunk_paths. intros Hw Hc.
  unfold process_audio_batches.
  unfold bind at 1 2 3 4. unfold set_status at 1 2, set_transcription_progress at 1, modify_self.
  simpl. fold (audio_for_chunking env path). unfold chunker_split_audio.
  rewrite split_audio_default.
  destruct (default [] (split_audio (decode env (audio_for_chunking env path)) 30000))
    as [|c cs] eqn:Hs; [done|].
  rewrite export_ok. unfold ret at 1. cbv beta iota.
  set (chunks := map chunk_path (c :: cs)).
  change (map chunk_path (c :: cs)) with chunks.
  assert (exists x xs, chunks = x :: xs) as (x & xs & Hch) by (by eexists _, _).
  rewrite Hch. rewrite <- Hch.
  unfold bind at 1. unfold set_transcription_progress at 1, modify_self.
  simpl self. simpl disk. simpl spawned.
  set (w0 := mkWorld _ (disk w) (spawned w)).
  pose proof (transcribe_loop_ret env (length chunks) chunks 0 w0) as Hret.
  assert (_stop_event (self (transcribe_loop env (length chunks) 0 chunks w0).2) = false)
    as Hq.
  { rewrite transcribe_loop_stage. apply stage_loop_quiet; [|done|done].
    apply transcribe_unit_flags. }
  unfold bind at 1.
  destruct (transcribe_loop env (length chunks) 0 chunks w0) as [r wl] eqn:Hl.
  simpl in Hret, Hq. subst r.
  exists wl. eexists. split; [done|].
  unfold bind, set_status, modify_self. simpl. rewrite merge_transcripts_spec. simpl.
  split; [reflexivity|]. done.
Qed.

Lemma process_audio_batches_quiet path w :
  _stop_event (self w) = false ->
  _stop_event (self (process_audio_batches env path w).2) = false.
Proof.
  intros Hw. destruct (chunk_paths env path) as [|x xs] eqn:Hc.
  - destruct (process_audio_batches_no_chunk env path w Hc) as (p' & -> & [Hf _] & _).
    simpl. congruence.
  - assert (chunk_paths env path <> []) as Hne by (by rewrite Hc).
    destruct (process_audio_batches_quiet_run path w Hw Hne) as (wl & p' & Hq & -> & [Hf _]).
    simpl. congruence.
Qed.

(** The summarization stage started with an empty summary directory, ollama
    raising for no segment. *)
Lemma summarization_from_fresh w :
  listdir SUMMARY_DIR (disk w) = [] ->
  _stop_event (self w) = false ->
  text_segments (disk w) <> [] ->
  (forall x, x ∈ text_segments (disk w) -> summarize_result env x = Ret (summary_of env x)) ->
  let w2 := (process_summary_batches env w).2 in
  (process_summary_batches env w).1 = Ret true /\
  summaries_are (disk w2) (map (summary_of env) (text_segments (disk w))) /\
  disk w2 !! FINAL_NOTES_FILE = Some (notes_text (disk w2)) /\
  summarization_progress (self w2) = 1%Q /\
  status_message (self w2) = "Compiling final notes..." /\
  (forall p, p <> FINAL_NOTES_FILE -> (forall k, p <> summary_file k) ->
     disk w2 !! p = disk w !! p).
Proof.
  intros Hfresh Hw Hne Hok. simpl.
  assert (forall k, exists_nonempty (disk w) (summary_file k) = false) as Hex.
  { intros k. unfold exists_nonempty.
    by rewrite (listdir_nil _ _ _ _ Hfresh (child_of_summary_file k)). }
  assert ((process_summary_batches env w).1 = Ret true) as Hret.
  { apply process_summary_batches_result; [done|].
    intros k x e Hk He. rewrite Hok in He; [done|]. by eapply list_elem_of_lookup_2. }
  split_and!.
  - done.
  - split.
    + intros i c Hc. rewrite list_lookup_fmap in Hc.
      destruct (text_segments (disk w) !! i) as [x|] eqn:Hx; [|done].
      injection Hc as <-.
      destruct (process_summary_batches_written env w i x Hret Hx
                  (summarizing_quiet w i Hw) (Hex i)) as (text & Ht & Hd).
      rewrite Hd. unfold summary_of. by rewrite Ht.
    + intros p f Hp Hchild Hpre.
      destruct (child_of_summaries_ne p f Hchild) as (_ & Hnotes & _).
      destruct (process_summary_batches_disk env w p Hnotes)
        as [Heq|(k & x & text & Hx & -> & _)].
      * rewrite Heq, (listdir_nil _ _ _ _ Hfresh Hchild) in Hp. by destruct Hp.
      * exists k. split; [|done]. rewrite length_map. by apply lookup_lt_Some in Hx.
  - destruct (process_summary_batches_run env w Hne) as (r & wl & _ & Hcase).
    destruct r as [[]|e].
    + destruct Hcase as (p' & -> & _). simpl.
      by rewrite lookup_insert_eq, notes_text_stable.
    + by rewrite Hcase in Hret.
  - destruct (process_summary_batches_run env w Hne) as (r & wl & _ & Hcase).
    destruct r as [[]|e].
    + by destruct Hcase as (p' & -> & _ & ? & _).
    + by rewrite Hcase in Hret.
  - destruct (process_summary_batches_run env w Hne) as (r & wl & _ & Hcase).
    destruct r as [[]|e].
    + by destruct Hcase as (p' & -> & _ & _ & ?).
    + by rewrite Hcase in Hret.
  - intros p Hnotes Hunit.
    destruct (process_summary_batches_disk env w p Hnotes)
      as [Heq|(k & x & text & _ & -> & _)]; [done|]. by destruct (Hunit k).
Qed.

End CompleteRun.

Lemma listdir_nil_intro d (dk : gmap string string) :
  (forall p f, child_of d p = Some f -> dk !! p = None) -> listdir d dk = [].
Proof.
  intros Hnone. destruct (listdir d dk) as [|f l] eqn:Hl; [done|].
  assert (f ∈ listdir d dk) as Hin by (rewrite Hl; apply elem_of_cons; by left).
  apply listdir_elem in Hin as (p & Hp & Hc).
  rewrite (Hnone p f Hc) in Hp. by destruct Hp.
Qed.

(** X9. A complete run. The pipeline thread is started with empty transcript
    and summary directories, nobody asks for a stop, the chunk export
    succeeds and ollama raises for no segment; the recording gives between 1
    and 1000 chunks and the merged text between 1 and 1000 segments. Then
    [lecture_clean.txt] holds the transcriptions of the chunks in order,
    joined by single spaces and stripped; the summaries are those of its
    500-word segments; [notes/final_notes.txt] holds the header and the
    summaries in order, each followed by a blank line. The thread ends with
    [is_running] cleared, the summarization progress at 1.0 and the status
    still [Compiling final notes...]. *)
Theorem complete_run (env : Env) (w : World) :
  let chunks := chunk_paths env RECORDING_FILE in
  let text := strip (joined " " (map (transcribe_text env) chunks)) in
  let segments := default [] (split_text_into_chunks text 500) in
  let w' := (start_batch_processing env w).2 in
  listdir TRANSCRIPT_DIR (disk w) = [] ->
  listdir SUMMARY_DIR (disk w) = [] ->
  _stop_event (self w) = false ->
  (forall j, stop_before_transcribing env j = false) ->
  (forall j, stop_before_summarizing env j = false) ->
  export_error env = None ->
  0 < length chunks <= 1000 ->
  0 < length segments <= 1000 ->
  (forall x, x ∈ segments -> summarize_result env x = Ret (summary_of env x)) ->
  disk w' !! LECTURE_CLEAN_FILE = Some text /\
  transcripts_are (disk w') (map (transcribe_text env) chunks) /\
  summaries_are (disk w') (map (summary_of env) segments) /\
  disk w' !! FINAL_NOTES_FILE
  = Some (notes_header ++ joined (nl ++ nl) (map (summary_of env) segments)) /\
  is_running (self w') = false /\
  summarization_progress (self w') = 1%Q /\
  status_message (self w') = "Compiling final notes...".
Proof.
  intros chunks text segments w' Hft Hfs Hw Hqt Hqs He Hnc Hns Hok.
  assert (chunks <> []) as Hne by (intros H; rewrite H in Hnc; simpl in Hnc; lia).
  set (w0 := mkWorld (mkBP (transcription_progress (self w)) (summarization_progress (self w))
                           (status_message (self w)) true (_stop_event (self w)))
                     (disk w) (spawned w)).
  assert (w' = (run_pipeline env w0).2) as -> by done.
  (* the transcription stage *)
  destruct (transcription_from_fresh env Hqt He RECORDING_FILE w0 Hft Hw Hne)
    as (Hr1 & Htr & Hclean & Hframe1).
  pose proof (process_audio_batches_quiet env Hqt He RECORDING_FILE w0 Hw) as Hq1.
  pose proof (run_pipeline_cases env w0) as Hrun.
  rewrite pipeline_body_cases in Hrun.
  destruct (process_audio_batches env RECORDING_FILE w0) as [r1 w1].
  simpl in Hr1, Htr, Hclean, Hframe1, Hq1. subst r1.
  fold chunks in Htr.
  assert (merged_text (disk w1) = text) as Htext.
  { apply merged_text_units; [|done]. rewrite length_map. lia. }
  rewrite Htext in Hclean.
  assert (text_segments (disk w1) = segments) as Hseg.
  { unfold text_segments. by rewrite Hclean. }
  (* the summarization stage *)
  assert (listdir SUMMARY_DIR (disk w1) = []) as Hfs1.
  { apply listdir_nil_intro. intros p f Hc.
    destruct (child_of_summaries_ne p f Hc) as (Hp1 & _ & Hp2).
    rewrite (Hframe1 p Hp1 Hp2). simpl. by apply (listdir_nil _ _ _ _ Hfs Hc). }
  assert (text_segments (disk w1) <> []) as Hne2.
  { rewrite Hseg. intros H. rewrite H in Hns. simpl in Hns. lia. }
  destruct (summarization_from_fresh env Hqs w1 Hfs1 Hq1 Hne2)
    as (Hr2 & Hsu & Hnotes & Hprog & Hstatus & Hframe2).
  { by rewrite Hseg. }
  rewrite Hseg in Hsu.
  destruct (process_summary_batches env w1) as [r2 w2].
  simpl in Hr2, Hsu, Hnotes, Hprog, Hstatus, Hframe2. subst r2.
  rewrite Hrun. simpl.
  split_and!; try done.
  - rewrite Hframe2; [done| |].
    + unfold LECTURE_CLEAN_FILE, FINAL_NOTES_FILE, path_join, NOTES_DIR.
      rewrite !str_app_cons. discriminate.
    + intros k. unfold LECTURE_CLEAN_FILE, summary_file, path_join, SUMMARY_DIR.
      rewrite !str_app_cons. discriminate.
  - destruct Htr as [Htr1 Htr2]. split.
    + intros i c Hc. rewrite Hframe2; [by apply Htr1|apply batch_file_ne_notes|].
      intros k. apply batch_file_ne_summary.
    + intros p f Hp Hchild Hpre.
      destruct (child_of_transcripts_ne p f Hchild) as (_ & Hp1 & Hp2).
      rewrite (Hframe2 p Hp1 Hp2) in Hp. by apply (Htr2 p f).
  - rewrite Hnotes. f_equal. apply notes_text_units; [|done]. rewrite length_map. lia.
Qed.

(** Two chunks of a 45 s recording, transcribed as "spoken", one segment,
    one summary. *)
Lemma complete_run_witness :
  let env := mkEnv "python" true (fun _ => Some 45000%Z) true None
                   (fun _ => WorkerExit 0 " spoken ")
                   (fun _ => OllamaExit "- point ")
                   (fun _ => false) (fun _ => false) in
  let w' := (start_batch_processing env (mkWorld (mkBP 0 0 "Idle" false false) ∅ [])).2 in
  disk w' !! LECTURE_CLEAN_FILE = Some "spoken spoken" /\
  disk w' !! FINAL_NOTES_FILE
  = Some ("# Final Lecture Notes" ++ nl ++ nl ++ "- point" ++ nl ++ nl) /\
  is_running (self w') = false.
Proof.
  intros env w'.
  destruct (complete_run env (mkWorld (mkBP 0 0 "Idle" false false) ∅ []))
    as (Hclean & _ & _ & Hnotes & Hrun & _).
  - reflexivity.
  - reflexivity.
  - reflexivity.
  - reflexivity.
  - reflexivity.
  - reflexivity.
  - vm_compute. lia.
  - vm_compute. lia.
  - intros x Hx. vm_compute in Hx.
    apply elem_of_cons in Hx as [->|Hx]; [|by apply elem_of_nil in Hx]. reflexivity.
  - split_and!; [exact Hclean|exact Hnotes|exact Hrun].
Defined.

(** ** app.py: the notes the page shows *)

Module App.

(** [app.py] has a constant of its own; it does not import the
    processor's. *)
Definition FINAL_NOTES_FILE : string := "final_notes.txt".

(** Section "3. Notes" of the page: the content rendered, if any.
    [if os.path.exists(FINAL_NOTES_FILE): st.markdown(f.read())] *)
Definition notes_shown (dk : gmap string string) : option string :=
  dk !! FINAL_NOTES_FILE.

End App.

Lemma app_notes_not_a_unit :
  App.FINAL_NOTES_FILE <> LECTURE_CLEAN_FILE /\
  App.FINAL_NOTES_FILE <> FINAL_NOTES_FILE /\
  (forall k, App.FINAL_NOTES_FILE <> batch_file k) /\
  (forall k, App.FINAL_NOTES_FILE <> summary_file k).
Proof.
  unfold App.FINAL_NOTES_FILE, LECTURE_CLEAN_FILE, FINAL_NOTES_FILE, batch_file,
    summary_file, path_join, NOTES_DIR, TRANSCRIPT_DIR, SUMMARY_DIR.
  rewrite !str_app_cons. split_and!; try discriminate; intros k; discriminate.
Qed.

(** The pipeline body changes no file besides the units, the cleaned
    transcript and the processor's notes file. *)
Lemma pipeline_body_frame env w p :
  p <> LECTURE_CLEAN_FILE -> p <> FINAL_NOTES_FILE ->
  (forall k, p <> batch_file k) -> (forall k, p <> summary_file k) ->
  disk (pipeline_body env w).2 !! p = disk w !! p.
Proof.
  intros Hclean Hnotes Hbatch Hsum. rewrite pipeline_body_cases.
  assert (disk (process_audio_batches env RECORDING_FILE w).2 !! p = disk w !! p) as H1.
  { destruct (process_audio_batches_disk env RECORDING_FILE w p Hclean)
      as [Heq|(k & x & _ & -> & _)]; [done|]. by destruct (Hbatch k). }
  destruct (process_audio_batches env RECORDING_FILE w) as [[[]|e] w1]; simpl in H1; try done.
  assert (disk (process_summary_batches env w1).2 !! p = disk w1 !! p) as H2.
  { destruct (process_summary_batches_disk env w1 p Hnotes)
      as [Heq|(k & x & text & _ & -> & _)]; [done|]. by destruct (Hsum k). }
  destruct (process_summary_batches env w1) as [[?|e] w2]; simpl in H2; simpl; congruence.
Qed.

Lemma start_batch_processing_disk env w :
  disk (start_batch_processing env w).2
  = disk (pipeline_body env
            (mkWorld (mkBP (transcription_progress (self w)) (summarization_progress (self w))
                           (status_message (self w)) true (_stop_event (self w)))
                     (disk w) (spawned w))).2.
Proof.
  set (w0 := mkWorld _ (disk w) (spawned w)).
  assert ((start_batch_processing env w).2 = (run_pipeline env w0).2) as -> by done.
  pose proof (run_pipeline_cases env w0) as Hrun.
  destruct (pipeline_body env w0) as [[[]|e] w1]; by rewrite Hrun.
Qed.

(** X10. The page shows [final_notes.txt] of the working directory, while
    the processor writes [notes/final_notes.txt]: whatever the pipeline
    thread does, what the notes section shows after it is what it showed
    before, and [cleanup_artifacts] does not remove that file either. A run
    that writes its notes still leaves the section empty when the file was
    not there. *)
Theorem app_notes_never_written (env : Env) (locked : string -> bool) (w : World) :
  App.notes_shown (disk (start_batch_processing env w).2) = App.notes_shown (disk w) /\
  App.notes_shown (disk (cleanup_artifacts locked w).2) = App.notes_shown (disk w) /\
  (is_Some (disk (compile_final_notes w).2 !! FINAL_NOTES_FILE) /\
   App.notes_shown (disk (compile_final_notes w).2) = App.notes_shown (disk w)).
Proof.
  destruct app_notes_not_a_unit as (H1 & H2 & H3 & H4).
  unfold App.notes_shown. split_and!.
  - rewrite start_batch_processing_disk. by rewrite pipeline_body_frame.
  - destruct (cleanup_artifacts_run locked w) as (dk' & -> & Hdk). simpl.
    rewrite Hdk. reflexivity.
  - rewrite compile_final_notes_spec. simpl. rewrite lookup_insert_eq. by eexists.
  - rewrite compile_final_notes_spec. simpl. by rewrite lookup_insert_ne.
Qed.

Example app_notes_after_run :
  let env := mkEnv "python" true (fun _ => Some 45000%Z) true None
                   (fun _ => WorkerExit 0 "spoken") (fun _ => OllamaExit "- point")
                   (fun _ => false) (fun _ => false) in
  let w' := (start_batch_processing env (mkWorld (mkBP 0 0 "Idle" false false) ∅ [])).2 in
  is_Some (disk w' !! FINAL_NOTES_FILE) /\ App.notes_shown (disk w') = None.
Proof. split; [by eexists|]. by vm_compute. Qed.

(** ** transcribe_worker.py *)

Module Worker.

(** An exception of the two kinds the script distinguishes: [ImportError]
    and any other subclass of [Exception]. The libraries are assumed to
    raise nothing outside [Exception]. *)
Inductive PyExc :=
| ImportError (msg : string)
| Exception (msg : string).

(** [str(e)] *)
Definition str (e : PyExc) : string :=
  match e with ImportError msg => msg | Exception msg => msg end.

(** What ends a computation early: [sys.exit(code)] raises [SystemExit],
    which is not an [Exception]. *)
Inductive Raised :=
| SystemExit (code : Z)
| Exc (e : PyExc).

Inductive Res (A : Type) :=
| Done (a : A)
| Raise (r : Raised).
Arguments Done {A} a.
Arguments Raise {A} r.

(** A computation of the script: the state is what was written to stdout. *)
Definition P (A : Type) : Type := string -> Res A * string.

Definition ret {A} (a : A) : P A := fun out => (Done a, out).
Definition raise {A} (r : Raised) : P A := fun out => (Raise r, out).
Definition bind {A B} (m : P A) (k : A -> P B) : P B :=
  fun out => match m out with
             | (Done a, out') => k a out'
             | (Raise r, out') => (Raise r, out')
             end.

Notation "x <-- m ;; k" := (bind m (fun x => k))
  (at level 100, m at next level, right associativity).
Notation "m ;;> k" := (bind m (fun _ => k))
  (at level 100, right associativity).

(** [print(s)] *)
Definition print (s : string) : P unit := fun out => (Done tt, out ++ s ++ nl).

(** [sys.exit(code)] *)
Definition sys_exit (code : Z) : P unit := raise (SystemExit code).

(** A library call: [None] when it returns. *)
Definition call (outcome : option PyExc) : P unit :=
  match outcome with
  | None => ret tt
  | Some e => raise (Exc e)
  end.

(** The [except] clauses of the script. *)
Definition except_ImportError (e : PyExc) : bool :=
  match e with ImportError _ => true | Exception _ => false end.
Definition except_Exception (e : PyExc) : bool := true.

(** [try: body  except C1 as e: h1  except C2 as e: h2 ...]: the first
    clause whose class matches handles the exception, and what its handler
    raises is not handled by the clauses after it. [SystemExit] matches
    none of the clauses of the script. *)
Fixpoint first_handler {A} (e : PyExc) (handlers : list ((PyExc -> bool) * (PyExc -> P A)))
    : option (P A) :=
  match handlers with
  | [] => None
  | (matches, h) :: rest => if matches e then Some (h e) else first_handler e rest
  end.

Definition try_except {A} (body : P A) (handlers : list ((PyExc -> bool) * (PyExc -> P A)))
    : P A :=
  fun out =>
    match body out with
    | (Done a, out') => (Done a, out')
    | (Raise (SystemExit c), out') => (Raise (SystemExit c), out')
    | (Raise (Exc e), out') =>
        match first_handler e handlers with
        | Some h => h out'
        | None => (Raise (Exc e), out')
        end
    end.

(** The collaborators of the script. *)
Record WorkerEnv := mkWorkerEnv {
  (** [from faster_whisper import WhisperModel] *)
  import_faster_whisper : option PyExc;
  (** [os.path.exists] *)
  path_exists : string -> bool;
  (** [WhisperModel("small", device="cpu", compute_type="int8")] *)
  load_model : option PyExc;
  (** [model.transcribe(file_path, beam_size=10, language="en")]: the texts
      of the segments, or an exception *)
  model_transcribe : string -> list string + PyExc
}.

(** The module-level [try] around the import. *)
Definition import_block (wenv : WorkerEnv) : P unit :=
  try_except (call (import_faster_whisper wenv))
    [(except_ImportError,
      fun _ => print "Error: faster_whisper not found. Please install it." ;;> sys_exit 1)].

(** The statements after [sys.exit(1)] in the first handler of
    [transcribe]. The local [model] is bound only when the constructor
    returned. *)
Definition transcription (wenv : WorkerEnv) (model : option unit) (file_path : string)
    : P unit :=
  match model with
  | None =>
      raise (Exc (Exception
        "cannot access local variable 'model' where it is not associated with a value"))
  | Some _ =>
      match model_transcribe wenv file_path with
      | inr e => raise (Exc e)
      | inl segments =>
          let full_text := foldl (fun acc text => acc ++ text ++ " ") "" segments in
          print (strip full_text)
      end
  end.

Definition transcribe (wenv : WorkerEnv) (file_path : string) : P unit :=
  (if path_exists wenv file_path then ret tt
   else (print ("Error: File " ++ file_path ++ " not found.") ;;> sys_exit 1)) ;;>
  try_except (call (load_model wenv))
    [(except_Exception,
      fun e => print ("Error loading model: " ++ str e) ;;>
               sys_exit 1 ;;>
               transcription wenv None file_path);
     (except_Exception,
      fun e => print ("Error during transcription: " ++ str e) ;;> sys_exit 1)].

(** The script run as [python transcribe_worker.py ...]; [argv] is
    [sys.argv]. *)
Definition script (wenv : WorkerEnv) (argv : list string) : P unit :=
  import_block wenv ;;>
  if length argv <? 2
  then (print "Usage: python transcribe_worker.py <audio_file>" ;;> sys_exit 1)
  else match argv !! 1 with
       | Some audio_file => transcribe wenv audio_file
       | None => raise (Exc (Exception "list index out of range"))
       end.

(** The return code and the captured stdout of the process: 0 when the
    script ends, the code of [sys.exit], 1 for an uncaught exception. *)
Definition run (wenv : WorkerEnv) (argv : list string) : Z * string :=
  match script wenv argv "" with
  | (Done _, out) => (0%Z, out)
  | (Raise (SystemExit code), out) => (code, out)
  | (Raise (Exc _), out) => (1%Z, out)
  end.

End Worker.

(** The worker has what it needs to transcribe its argument: the import
    succeeds, the file exists and the model loads. *)
Definition worker_ready (wenv : Worker.WorkerEnv) (argv : list string) : Prop :=
  Worker.import_faster_whisper wenv = None /\
  exists audio_file, argv !! 1 = Some audio_file /\
    Worker.path_exists wenv audio_file = true /\
    Worker.load_model wenv = None.

#[global] Instance worker_ready_dec wenv argv : Decision (worker_ready wenv argv).
Proof.
  unfold worker_ready.
  destruct (Worker.import_faster_whisper wenv); [right; by intros [? _]|].
  destruct (argv !! 1) as [f|]; [|right; by intros [_ (? & ? & _)]].
  destruct (Worker.path_exists wenv f) eqn:Hf;
    [|right; intros [_ (? & [= <-] & ? & _)]; congruence].
  destruct (Worker.load_model wenv) eqn:Hm;
    [right; intros [_ (? & _ & _ & ?)]; congruence|].
  left. split; [done|]. by exists f.
Defined.

Lemma worker_run_cases (wenv : Worker.WorkerEnv) (argv : list string) :
  Worker.run wenv argv
  = match Worker.import_faster_whisper wenv with
    | Some (Worker.ImportError _) =>
        (1%Z, "Error: faster_whisper not found. Please install it." ++ nl)
    | Some (Worker.Exception _) => (1%Z, "")
    | None =>
        match argv !! 1 with
        | None => (1%Z, "Usage: python transcribe_worker.py <audio_file>" ++ nl)
        | Some audio_file =>
            if Worker.path_exists wenv audio_file then
              match Worker.load_model wenv with
              | None => (0%Z, "")
              | Some e => (1%Z, "Error loading model: " ++ Worker.str e ++ nl)
              end
            else (1%Z, "Error: File " ++ audio_file ++ " not found." ++ nl)
        end
    end.
Proof.
  unfold Worker.run, Worker.script, Worker.import_block, Worker.try_except, Worker.bind,
    Worker.call.
  destruct (Worker.import_faster_whisper wenv) as [[msg|msg]|]; [done|done|].
  cbn.
  destruct argv as [|a0 [|audio_file rest]]; [done|done|].
  cbn. unfold Worker.transcribe, Worker.try_except, Worker.bind, Worker.call.
  destruct (Worker.path_exists wenv audio_file); cbn.
  - destruct (Worker.load_model wenv) as [e|]; cbn; [|done].
    by rewrite str_app_assoc.
  - by rewrite !str_app_assoc.
Qed.

(** X11. [transcribe_worker.py] never prints a transcript. When the import
    succeeds, a file argument is given and exists, and the model loads, the
    process ends with return code 0 and an empty stdout: the call of
    [model.transcribe] sits in the handler of the model-loading [try], after
    [sys.exit(1)]. In every other case the return code is 1 and stdout is
    empty or one line starting with [Error] or [Usage]. The outcome does not
    depend on what [model.transcribe] would return. *)
Theorem worker_never_prints_transcript (wenv : Worker.WorkerEnv) (argv : list string) :
  (worker_ready wenv argv -> Worker.run wenv argv = (0%Z, "")) /\
  (~ worker_ready wenv argv ->
   exists out, Worker.run wenv argv = (1%Z, out) /\
     (out = "" \/ exists line, out = line ++ nl /\
        (startswith line "Error" = true \/ startswith line "Usage" = true))) /\
  (forall t,
     Worker.run (Worker.mkWorkerEnv (Worker.import_faster_whisper wenv)
                   (Worker.path_exists wenv) (Worker.load_model wenv) t) argv
     = Worker.run wenv argv).
Proof.
  split_and!.
  - intros (Hi & f & Hf & Hex & Hm). by rewrite worker_run_cases, Hi, Hf, Hex, Hm.
  - intros Hnot. rewrite worker_run_cases. unfold worker_ready in Hnot.
    destruct (Worker.import_faster_whisper wenv) as [[msg|msg]|].
    + eexists. split; [reflexivity|]. right. eexists. split; [reflexivity|]. by left.
    + eexists. split; [reflexivity|]. by left.
    + destruct (argv !! 1) as [f|].
      * destruct (Worker.path_exists wenv f) eqn:Hex.
        -- destruct (Worker.load_model wenv) as [e|] eqn:Hm.
           ++ eexists. split; [reflexivity|]. right.
              exists ("Error loading model: " ++ Worker.str e).
              split; [by rewrite str_app_assoc|]. by left.
           ++ exfalso. apply Hnot. split; [done|]. by exists f.
        -- eexists. split; [reflexivity|]. right.
           exists ("Error: File " ++ f ++ " not found.").
           split; [by rewrite !str_app_assoc|]. by left.
      * eexists. split; [reflexivity|]. right. eexists. split; [reflexivity|]. by right.
  - intros t. by rewrite !worker_run_cases.
Qed.

Lemma worker_never_prints_transcript_witness :
  let wenv := Worker.mkWorkerEnv None (fun _ => true) None
                (fun _ => inl ["Hello"; "world"]) in
  Worker.run wenv ["transcribe_worker.py"; "audio_chunks/chunk_000.wav"] = (0%Z, "") /\
  exists out, Worker.run wenv ["transcribe_worker.py"] = (1%Z, out).
Proof.
  intros wenv. split.
  - destruct (worker_never_prints_transcript wenv
                ["transcribe_worker.py"; "audio_chunks/chunk_000.wav"]) as (H & _ & _).
    apply H. split; [reflexivity|].
    exists "audio_chunks/chunk_000.wav". by split_and!.
  - destruct (worker_never_prints_transcript wenv ["transcribe_worker.py"])
      as (_ & H & _).
    destruct H as (out & Hout & _); [|by exists out].
    intros (_ & f & Hf & _). by vm_compute in Hf.
Defined.

(** ** The pipeline with the worker of the repository *)











(** ** app.py: the recording buttons *)

Module Recorder.

(** The two entries of [st.session_state] the recording functions use. The
    page initialises them to [False] and [None]. *)
Record Session := mkSession {
  recording : bool;
  recorder_pid : option nat
}.

Definition initial : Session := mkSession false None.

Inductive Message :=
| success (text : string)
| error (text : string)
| warning (text : string).

(** The session, whether [recording.wav] exists, and what the functions did
    to the outside: the commands given to [subprocess.Popen], the pids sent
    [SIGTERM], the messages put on the page. *)
Record AppWorld := mkApp {
  session : Session;
  recording_file : bool;
  started : list (list string);
  killed : list nat;
  messages : list Message
}.

(** The exceptions that leave a function of the page. *)
Inductive AppExc :=
| NameError (name : string).

Inductive Result (A : Type) :=
| Returned (a : A)
| Raised (e : AppExc).
Arguments Returned {A} a.
Arguments Raised {A} e.

Definition Act (T : Type) : Type := AppWorld -> Result T * AppWorld.

Definition ret {T} (a : T) : Act T := fun w => (Returned a, w).
Definition raise {T} (e : AppExc) : Act T := fun w => (Raised e, w).
Definition bind {T U} (m : Act T) (k : T -> Act U) : Act U :=
  fun w => match m w with
           | (Returned a, w') => k a w'
           | (Raised e, w') => (Raised e, w')
           end.

Notation "x <-- m ;; k" := (bind m (fun x => k))
  (at level 100, m at next level, right associativity).
Notation "m ;;> k" := (bind m (fun _ => k))
  (at level 100, right associativity).

(** The names bound in the module when a button handler runs: the imports
    and the assignments and definitions of the script, in the order of the
    source. [sys] is not imported, and it is not a builtin. *)
Definition module_names : list string :=
  ["st"; "os"; "threading"; "time"; "sd"; "np"; "wav"; "BatchProcessor";
   "RECORDING_FILE"; "FINAL_NOTES_FILE"; "devices"; "input_devices";
   "selected_device_str"; "selected_device_index"; "status_placeholder";
   "progress_bar"; "volume_bar"; "update_status"; "signal"; "subprocess";
   "start_recording_subprocess"; "stop_recording_subprocess"; "uploaded_file";
   "col1"; "col2"].

(** Reading a global name. *)
Definition global (name : string) : Act unit :=
  if bool_decide (name ∈ module_names) then ret tt else raise (NameError name).

Definition get_session : Act Session := fun w => (Returned (session w), w).
Definition set_session (s : Session) : Act unit :=
  fun w => (Returned tt, mkApp s (recording_file w) (started w) (killed w) (messages w)).
Definition show (m : Message) : Act unit :=
  fun w => (Returned tt, mkApp (session w) (recording_file w) (started w) (killed w)
                               (messages w ++ [m])).

(** What [os.kill] does. *)
Inductive KillResult :=
| KillOk
| KillProcessLookupError
| KillException (msg : string).

(** The outside of the page. *)
Record AppEnv := mkAppEnv {
  sys_executable : string;
  selected_device_index : nat;
  (** [os.remove(RECORDING_FILE)] succeeds *)
  remove_ok : bool;
  (** [subprocess.Popen(cmd)]: the pid, or the text of the exception *)
  popen : list string -> nat + string;
  kill : nat -> KillResult;
  (** the recorder has written [recording.wav] two seconds after SIGTERM *)
  saved_after_kill : nat -> bool
}.

Definition exists_recording : Act bool := fun w => (Returned (recording_file w), w).
Definition set_recording_file (b : bool) : Act unit :=
  fun w => (Returned tt, mkApp (session w) b (started w) (killed w) (messages w)).
Definition log_started (cmd : list string) : Act unit :=
  fun w => (Returned tt, mkApp (session w) (recording_file w) (started w ++ [cmd])
                               (killed w) (messages w)).
Definition log_killed (pid : nat) : Act unit :=
  fun w => (Returned tt, mkApp (session w) (recording_file w) (started w)
                               (killed w ++ [pid]) (messages w)).

Definition start_recording_subprocess (env : AppEnv) : Act unit :=
  global "st" ;;>
  s <-- get_session ;;
  match recorder_pid s with
  | Some _ => ret tt
  | None =>
      (* cmd = [sys.executable, "recorder_process.py", str(selected_device_index),
                RECORDING_FILE] *)
      global "sys" ;;>
      global "selected_device_index" ;;>
      global "RECORDING_FILE" ;;>
      let cmd := [sys_executable env; "recorder_process.py";
                  PyStr.dec (selected_device_index env); RECORDING_FILE] in
      global "os" ;;>
      present <-- exists_recording ;;
      (if present && remove_ok env then set_recording_file false else ret tt) ;;>
      global "subprocess" ;;>
      match popen env cmd with
      | inl pid =>
          log_started cmd ;;>
          s1 <-- get_session ;;
          set_session (mkSession (recording s1) (Some pid)) ;;>
          s2 <-- get_session ;;
          set_session (mkSession true (recorder_pid s2)) ;;>
          show (success ("Recording started (PID: " ++ PyStr.dec pid ++ ")"))
      | inr e => show (error ("Failed to start recorder: " ++ e))
      end
  end.

Definition stop_recording_subprocess (env : AppEnv) : Act unit :=
  global "st" ;;>
  s <-- get_session ;;
  match recorder_pid s with
  | None => ret tt
  | Some pid =>
      global "os" ;;>
      global "signal" ;;>
      match kill env pid with
      | KillOk =>
          log_killed pid ;;>
          global "time" ;;>
          (if saved_after_kill env pid then set_recording_file true else ret tt) ;;>
          s1 <-- get_session ;;
          set_session (mkSession (recording s1) None) ;;>
          s2 <-- get_session ;;
          set_session (mkSession false (recorder_pid s2)) ;;>
          present <-- exists_recording ;;
          if present then show (success ("Saved to " ++ RECORDING_FILE))
          else show (error "Recording file not found after stop.")
      | KillProcessLookupError =>
          show (warning "Recorder process was already gone.") ;;>
          s1 <-- get_session ;;
          set_session (mkSession (recording s1) None) ;;>
          s2 <-- get_session ;;
          set_session (mkSession false (recorder_pid s2))
      | KillException e => show (error ("Error stopping: " ++ e))
      end
  end.

(** A click on one of the two buttons. A disabled button takes no click:
    [Start] is disabled while recording, [Stop] while not. *)
Inductive Click := Start | Stop.

Definition click (env : AppEnv) (c : Click) : Act unit :=
  s <-- get_session ;;
  match c with
  | Start => if recording s then ret tt else start_recording_subprocess env
  | Stop => if recording s then stop_recording_subprocess env else ret tt
  end.

(** The world after a series of clicks; an exception ends the run of the
    script in which it is raised, not the session. *)
Fixpoint clicks (env : AppEnv) (cs : list Click) (w : AppWorld) : AppWorld :=
  match cs with
  | [] => w
  | c :: rest => clicks env rest (click env c w).2
  end.

End Recorder.

Lemma global_bound name w :
  bool_decide (name ∈ Recorder.module_names) = true ->
  Recorder.global name w = (Recorder.Returned tt, w).
Proof. intros Hin. unfold Recorder.global. by rewrite Hin. Qed.

Lemma global_sys w :
  Recorder.global "sys" w = (Recorder.Raised (Recorder.NameError "sys"), w).
Proof.
  unfold Recorder.global.
  assert (bool_decide ("sys" ∈ Recorder.module_names) = false) as -> by (by vm_compute).
  done.
Qed.

Ltac bound_names :=
  repeat (unfold Recorder.bind at 1; rewrite global_bound by (by vm_compute)).

Lemma start_recording_idle env w :
  Recorder.recorder_pid (Recorder.session w) = None ->
  Recorder.start_recording_subprocess env w = (Recorder.Raised (Recorder.NameError "sys"), w).
Proof.
  intros Hpid. unfold Recorder.start_recording_subprocess. bound_names.
  unfold Recorder.bind at 1. unfold Recorder.get_session at 1. rewrite Hpid.
  unfold Recorder.bind at 1. by rewrite global_sys.
Qed.

Lemma click_idle env c w :
  Recorder.session w = Recorder.initial ->
  (Recorder.click env c w).2 = w /\
  (Recorder.click env c w).1
  = match c with
    | Recorder.Start => Recorder.Raised (Recorder.NameError "sys")
    | Recorder.Stop => Recorder.Returned tt
    end.
Proof.
  intros Hs. unfold Recorder.click, Recorder.bind, Recorder.get_session. rewrite Hs. simpl.
  destruct c; [|done]. by rewrite start_recording_idle by (by rewrite Hs).
Qed.

(** X13. The recording buttons start nothing. [app.py] never imports
    [sys], so [start_recording_subprocess] raises [NameError] when it builds
    the command; this happens before the old recording is removed and
    before [subprocess.Popen]. From the initial session, whatever buttons
    are clicked, the session stays not recording with no recorder pid, no
    process is started or signalled, and [recording.wav] is left as it is;
    every click on [Start] ends in the [NameError]. *)
Theorem recording_never_starts (env : Recorder.AppEnv) (cs : list Recorder.Click)
    (w : Recorder.AppWorld) :
  Recorder.session w = Recorder.initial ->
  Recorder.clicks env cs w = w /\
  (Recorder.click env Recorder.Start (Recorder.clicks env cs w)).1
  = Recorder.Raised (Recorder.NameError "sys").
Proof.
  intros Hs.
  assert (Recorder.clicks env cs w = w) as Hcs.
  { induction cs as [|c cs IH]; [done|]. simpl.
    destruct (click_idle env c w Hs) as [-> _]. exact IH. }
  rewrite Hcs. split; [done|]. by destruct (click_idle env Recorder.Start w Hs) as [_ ->].
Qed.

Lemma recording_never_starts_witness :
  let env := Recorder.mkAppEnv "python" 1 true (fun _ => inl 4242) (fun _ => Recorder.KillOk)
               (fun _ => true) in
  let w := Recorder.mkApp Recorder.initial true [] [] [] in
  Recorder.clicks env [Recorder.Start; Recorder.Stop; Recorder.Start] w = w.
Proof.
  intros env w.
  by destruct (recording_never_starts env [Recorder.Start; Recorder.Stop; Recorder.Start] w
                 eq_refl) as [H _].
Defined.

(** [stop_recording_subprocess] on a session that has a recorder: it
    returns; the pid is forgotten when the signal was sent or the process was
    already gone, and kept, with the session as it was, when [os.kill] raises
    anything else. *)
Lemma stop_recording_cases env w pid :
  Recorder.recorder_pid (Recorder.session w) = Some pid ->
  exists w',
    Recorder.stop_recording_subprocess env w = (Recorder.Returned tt, w') /\
    Recorder.started w' = Recorder.started w /\
    Recorder.session w'
    = match Recorder.kill env pid with
      | Recorder.KillException _ => Recorder.session w
      | _ => Recorder.initial
      end.
Proof.
  intros Hpid. destruct w as [[rec rp] f st k m]. simpl in Hpid. subst rp.
  destruct env as [exe idx rm po kl sv]. vm_compute.
  destruct (kl pid); [destruct (sv pid); [|destruct f]|..];
    eexists; (split; [reflexivity|done]).
Qed.

Lemma start_recording_busy env w pid :
  Recorder.recorder_pid (Recorder.session w) = Some pid ->
  Recorder.start_recording_subprocess env w = (Recorder.Returned tt, w).
Proof.
  intros Hpid. unfold Recorder.start_recording_subprocess. bound_names.
  unfold Recorder.bind at 1. unfold Recorder.get_session at 1. by rewrite Hpid.
Qed.

Lemma stop_recording_idle env w :
  Recorder.recorder_pid (Recorder.session w) = None ->
  Recorder.stop_recording_subprocess env w = (Recorder.Returned tt, w).
Proof.
  intros Hpid. unfold Recorder.stop_recording_subprocess. bound_names.
  unfold Recorder.bind at 1. unfold Recorder.get_session at 1. by rewrite Hpid.
Qed.

(** One click starts no process and does not turn the recording on. *)
Lemma click_starts_nothing env c w :
  let w' := (Recorder.click env c w).2 in
  Recorder.started w' = Recorder.started w /\
  (Recorder.session w' = Recorder.session w \/
   Recorder.recording (Recorder.session w) = true /\
   Recorder.session w' = Recorder.initial).
Proof.
  simpl. unfold Recorder.click, Recorder.bind, Recorder.get_session.
  destruct (Recorder.recording (Recorder.session w)) eqn:Hrec;
    destruct c; simpl; try (split; [done|by left]).
  - destruct (Recorder.recorder_pid (Recorder.session w)) as [pid|] eqn:Hpid.
    + destruct (stop_recording_cases env w pid Hpid) as (w' & -> & Hst & Hs). simpl.
      split; [done|]. rewrite Hs. destruct (Recorder.kill env pid); auto.
    + rewrite stop_recording_idle by done. split; [done|by left].
  - destruct (Recorder.recorder_pid (Recorder.session w)) as [pid|] eqn:Hpid.
    + rewrite (start_recording_busy env w pid) by done. split; [done|by left].
    + rewrite start_recording_idle by done. split; [done|by left].
Qed.

(** X14. Whatever state the session is in, no series of clicks on the
    recording buttons starts a recorder process or turns [recording] on: a
    click on [Start] returns at once when a pid is recorded and raises the
    [NameError] otherwise, and a click on [Stop] leaves the session as it was
    or resets it to not recording without a pid. *)
Theorem clicks_start_nothing (env : Recorder.AppEnv) (cs : list Recorder.Click)
    (w : Recorder.AppWorld) :
  let w' := Recorder.clicks env cs w in
  Recorder.started w' = Recorder.started w /\
  (Recorder.session w' = Recorder.session w \/ Recorder.session w' = Recorder.initial) /\
  (Recorder.recording (Recorder.session w) = false ->
   Recorder.recording (Recorder.session w') = false).
Proof.
  simpl. revert w. induction cs as [|c cs IH]; intros w; simpl.
  - split_and!; [done|by left|done].
  - destruct (click_starts_nothing env c w) as (Hst & Hs).
    destruct (IH (Recorder.click env c w).2) as (Hst' & Hs' & Hrec').
    split_and!.
    + congruence.
    + destruct Hs' as [->| ->]; [|by right].
      destruct Hs as [->|[_ ->]]; [by left|by right].
    + intros Hrec. apply Hrec'.
      destruct Hs as [->|[Hon _]]; [done|congruence].
Qed.

Lemma clicks_start_nothing_witness :
  let env := Recorder.mkAppEnv "python" 1 true (fun _ => inl 4242) (fun _ => Recorder.KillOk)
               (fun _ => true) in
  let w := Recorder.mkApp (Recorder.mkSession true (Some 77)) false [] [] [] in
  let w' := Recorder.clicks env [Recorder.Stop; Recorder.Start; Recorder.Stop] w in
  Recorder.started w' = [] /\ Recorder.session w' = Recorder.initial /\
  Recorder.killed w' = [77].
Proof.
  intros env w w'.
  destruct (clicks_start_nothing env [Recorder.Stop; Recorder.Start; Recorder.Stop] w)
    as (Hst & _ & _).
  split_and!; [exact Hst|by vm_compute|by vm_compute].
Defined.

(** ** RealtimeSTT missing *)

Definition realtimestt_missing : string := "[Error: RealtimeSTT not found]".

Lemma strip_keeps_word c s :
  is_space c = false -> exists r, strip (String c s) = String c r.
Proof.
  intros Hc. unfold strip. simpl. rewrite Hc. simpl.
  destruct (rstrip s); [rewrite Hc|]; by eexists.
Qed.

(** X15. When RealtimeSTT cannot be imported, the transcription stage starts
    no worker and writes the text [[Error: RealtimeSTT not found]] as the
    transcript of every chunk. With an empty transcript directory, no stop
    request, the export not raising and between 1 and 1000 chunks, the stage
    still returns [True] and the cleaned transcript is that text once per
    chunk, separated by single spaces: it holds words, so the summarization
    stage goes on to summarize it. *)
Theorem transcription_without_realtimestt (env : Env) (path : string) (w : World) :
  realtimestt_importable env = false ->
  export_error env = None ->
  (forall j, stop_before_transcribing env j = false) ->
  _stop_event (self w) = false ->
  listdir TRANSCRIPT_DIR (disk w) = [] ->
  0 < length (chunk_paths env path) <= 1000 ->
  let w1 := (process_audio_batches env path w).2 in
  (process_audio_batches env path w).1 = Ret true /\
  spawned w1 = spawned w /\
  (forall k, k < length (chunk_paths env path) ->
     disk w1 !! batch_file k = Some realtimestt_missing) /\
  disk w1 !! LECTURE_CLEAN_FILE
  = Some (strip (joined " " (map (fun _ => realtimestt_missing) (chunk_paths env path)))) /\
  ~ no_text (disk w1).
Proof.
  intros Himp He Hq Hw Hfresh Hn. simpl.
  assert (chunk_paths env path <> []) as Hne.
  { intros H. rewrite H in Hn. simpl in Hn. lia. }
  assert (forall x, transcribe_text env x = realtimestt_missing) as Htext.
  { intros x. unfold transcribe_text. by rewrite Himp. }
  assert (map (transcribe_text env) (chunk_paths env path)
          = map (fun _ => realtimestt_missing) (chunk_paths env path)) as Hmap.
  { apply map_ext. intros x. apply Htext. }
  destruct (transcription_from_fresh env Hq He path w Hfresh Hw Hne)
    as (Hret & Htr & Hclean & _).
  destruct (process_audio_batches_spawned env path w) as (extra & Hsp & Hextra).
  rewrite Hmap in Htr.
  assert (disk (process_audio_batches env path w).2 !! LECTURE_CLEAN_FILE
          = Some (strip (joined " " (map (fun _ => realtimestt_missing)
                                         (chunk_paths env path))))) as Hclean'.
  { rewrite Hclean. f_equal. apply merged_text_units; [|done]. rewrite length_map. lia. }
  split_and!.
  - done.
  - destruct extra as [|s extra]; [by rewrite Hsp, app_nil_r|].
    destruct (Hextra s) as (k & x & _ & Hin & _); [apply elem_of_cons; by left|].
    unfold transcribe_spawns in Hin. rewrite Himp in Hin. by apply elem_of_nil in Hin.
  - intros k Hk. destruct Htr as [Htr _]. apply Htr.
    destruct (lookup_lt_is_Some_2 (chunk_paths env path) k Hk) as [x Hx].
    rewrite list_lookup_fmap, Hx. done.
  - done.
  - unfold no_text. rewrite Hclean'.
    destruct (chunk_paths env path) as [|x xs]; [done|]. simpl.
    unfold realtimestt_missing. rewrite str_app_cons.
    destruct (strip_keeps_word "[" ("Error: RealtimeSTT not found]" ++
                " " ++ joined " " (map (fun _ => "[Error: RealtimeSTT not found]") xs)))
      as (r & ->); [done|]. done.
Qed.

Lemma transcription_without_realtimestt_witness :
  let env := mkEnv "python" false (fun _ => Some 45000%Z) true None
                   (fun _ => WorkerExit 0 "spoken") (fun _ => OllamaExit "- point")
                   (fun _ => false) (fun _ => false) in
  let w1 := (process_audio_batches env RECORDING_FILE
               (mkWorld (mkBP 0 0 "Idle" true false) ∅ [])).2 in
  spawned w1 = [] /\
  disk w1 !! LECTURE_CLEAN_FILE
  = Some "[Error: RealtimeSTT not found] [Error: RealtimeSTT not found]".
Proof.
  intros env w1.
  destruct (transcription_without_realtimestt env RECORDING_FILE
              (mkWorld (mkBP 0 0 "Idle" true false) ∅ []))
    as (_ & Hsp & _ & Hclean & _).
  - reflexivity.
  - reflexivity.
  - reflexivity.
  - reflexivity.
  - reflexivity.
  - vm_compute. lia.
  - split; [exact Hsp|exact Hclean].
Defined.
